(** * eslint-plugin-entered-modules: the [no-invalid-entry-imports] rule

    A shallow embedding of the [ImportDeclaration] handler of
    [src/rules/no-invalid-entry-imports.ts] and the properties of the
    path classifier it implements.

    - JavaScript strings are sequences of UTF-16 code units: [list N].
    - The regular expressions of the rule are values of a small [regex]
      type, run by a derivative matcher ([test], [replace_end],
      [match_groups]) that is proved equivalent to the usual
      denotation of regular expressions.
    - [context.report] and the early [return]s are kept: the handler is a
      statement over the list of reports made so far. *)

From Stdlib Require Import List NArith Bool Arith Lia Ascii.
From Stdlib Require String.
Import ListNotations.
Import String.StringSyntax.

(** ** JavaScript strings *)

Definition code_unit := N.
Definition str := list code_unit.

(** A string literal of the source, as code units. *)
Definition js (s : String.string) : str :=
  map N_of_ascii (String.list_ascii_of_string s).

Arguments js s%_string_scope.

Definition SLASH : code_unit := 47%N.

(** [s.startsWith(prefix)] *)
Fixpoint startsWith (s prefix : str) {struct prefix} : bool :=
  match prefix, s with
  | [], _ => true
  | _ :: _, [] => false
  | c :: prefix', d :: s' => (d =? c)%N && startsWith s' prefix'
  end.

(** [s.slice(n)] for [0 <= n]. *)
Definition slice (s : str) (n : nat) : str := skipn n s.

(** [s.includes(c)] for a needle of one code unit. *)
Definition includes (s : str) (c : code_unit) : bool :=
  existsb (fun d => (d =? c)%N) s.

(** [s.split(sep)] for a separator of one code unit; the result is never
    empty ([''.split('/')] is [['']]). *)
Fixpoint split (s : str) (sep : code_unit) : list str :=
  match s with
  | [] => [[]]
  | c :: s' =>
      if (c =? sep)%N then [] :: split s' sep
      else match split s' sep with
           | [] => [[c]]
           | seg :: segs => (c :: seg) :: segs
           end
  end.

(** The longest prefix whose code units satisfy [f], and what is left
    after it. *)
Fixpoint dropWhile (f : code_unit -> bool) (s : str) : str :=
  match s with
  | [] => []
  | c :: s' => if f c then dropWhile f s' else s
  end.

Fixpoint takeWhile (f : code_unit -> bool) (s : str) : str :=
  match s with
  | [] => []
  | c :: s' => if f c then c :: takeWhile f s' else []
  end.

Definition is_slash (c : code_unit) : bool := (c =? SLASH)%N.

(** [[^/]] *)
Definition not_slash (c : code_unit) : bool := negb (is_slash c).

(** [path.basename(p)] of Node.js, POSIX flavour, without a suffix
    argument.  The function is not part of the repository; it scans the
    path from its end, ignores trailing separators and returns what stands
    between the last separator before them and those trailing separators
    (the empty string when the path holds nothing but separators). *)
Definition basename (p : str) : str :=
  rev (takeWhile not_slash (dropWhile is_slash (rev p))).

(** ** Regular expressions *)

Inductive regex : Type :=
| Void
| Eps
| Class (f : code_unit -> bool)
| Cat (r1 r2 : regex)
| Alt (r1 r2 : regex)
| Star (r : regex).

Definition Chr (c : code_unit) : regex := Class (N.eqb c).
Definition Plus (r : regex) : regex := Cat r (Star r).
Definition Opt (r : regex) : regex := Alt r Eps.

Fixpoint Lit (w : str) : regex :=
  match w with
  | [] => Eps
  | c :: w' => Cat (Chr c) (Lit w')
  end.

Fixpoint nullable (r : regex) : bool :=
  match r with
  | Void => false
  | Eps => true
  | Class _ => false
  | Cat a b => nullable a && nullable b
  | Alt a b => nullable a || nullable b
  | Star _ => true
  end.

Fixpoint deriv (c : code_unit) (r : regex) : regex :=
  match r with
  | Void => Void
  | Eps => Void
  | Class f => if f c then Eps else Void
  | Cat a b =>
      if nullable a then Alt (Cat (deriv c a) b) (deriv c b)
      else Cat (deriv c a) b
  | Alt a b => Alt (deriv c a) (deriv c b)
  | Star a => Cat (deriv c a) (Star a)
  end.

(** [/^r$/.test(s)]: the whole of [s] is a word of [r]. *)
Fixpoint test (r : regex) (s : str) : bool :=
  match s with
  | [] => nullable r
  | c :: s' => test (deriv c r) s'
  end.

(** [s.replace(/r$/, '')]: the leftmost position from which the rest of
    the string is a word of [r] is where the string is cut; no such
    position, no change. *)
Fixpoint replace_end (r : regex) (s : str) : str :=
  if test r s then []
  else match s with
       | [] => []
       | c :: s' => c :: replace_end r s'
       end.

(** The words of a regular expression. *)
Inductive matches : regex -> str -> Prop :=
| MEps : matches Eps []
| MClass f c : f c = true -> matches (Class f) [c]
| MCat a b s t : matches a s -> matches b t -> matches (Cat a b) (s ++ t)
| MAltL a b s : matches a s -> matches (Alt a b) s
| MAltR a b s : matches b s -> matches (Alt a b) s
| MStarNil a : matches (Star a) []
| MStarApp a s t : matches a s -> matches (Star a) t -> matches (Star a) (s ++ t).

(** [s.match(/^pre(g1)mid(g2)$/)], with [pre] and [mid] literal and the
    quantifier of [g1] greedy: the first group is tried from the longest
    candidate down, and the pair of captured groups is returned for the
    first candidate that lets the rest of the pattern match. *)
Fixpoint match_groups_from (g1 : regex) (mid : str) (g2 : regex)
         (s : str) (n : nat) : option (str * str) :=
  let a := firstn n s in
  let b := skipn n s in
  if test g1 a && startsWith b mid && test g2 (slice b (length mid))
  then Some (a, slice b (length mid))
  else match n with
       | O => None
       | S n' => match_groups_from g1 mid g2 s n'
       end.

Definition match_groups (pre : str) (g1 : regex) (mid : str) (g2 : regex)
           (s : str) : option (str * str) :=
  if startsWith s pre
  then match_groups_from g1 mid g2 (slice s (length pre)) (length s - length pre)
  else None.

(** ** The patterns of the rule *)

Definition DOT : code_unit := 46%N.

(** [[0-9A-Za-z-]] *)
Definition seg_char (c : code_unit) : bool :=
  ((48 <=? c) && (c <=? 57) || (65 <=? c) && (c <=? 90)
   || (97 <=? c) && (c <=? 122) || (c =? 45))%N.

(** The line terminators of ECMAScript: LF, CR, U+2028 and U+2029. *)
Definition line_terminator (c : code_unit) : bool :=
  ((c =? 10) || (c =? 13) || (c =? 8232) || (c =? 8233))%N.

(** [.] in a pattern without the [s] flag. *)
Definition any_char (c : code_unit) : bool := negb (line_terminator c).

(** [/\.(ts|tsx|js|jsx)$/] without its anchor. *)
Definition EXTENSION : regex :=
  Cat (Chr DOT)
      (Alt (Lit (js "ts")) (Alt (Lit (js "tsx")) (Alt (Lit (js "js")) (Lit (js "jsx"))))).

(** [/^entry(\.[0-9A-Za-z-]+)*$/] *)
Definition NORMAL_ENTRY : regex :=
  Cat (Lit (js "entry")) (Star (Cat (Chr DOT) (Plus (Class seg_char)))).

(** [/^entry\.\.(G)?children$/] where the group [G] is
    [([0-9A-Za-z-]+\.)*] . *)
Definition CHILDREN_ENTRY : regex :=
  Cat (Lit (js "entry.."))
      (Cat (Opt (Star (Cat (Plus (Class seg_char)) (Chr DOT))))
           (Lit (js "children"))).

Definition isNormalEntry (fileName : str) : bool := test NORMAL_ENTRY fileName.
Definition isChildrenEntry (fileName : str) : bool := test CHILDREN_ENTRY fileName.

(** [name.replace(/\.(ts|tsx|js|jsx)$/, '')] *)
Definition stripExtension (name : str) : str := replace_end EXTENSION name.

(** [importPath.match(/^@\/([^/]+)\/(.+)$/)]: the groups [moduleName] and
    [filePath]. *)
Definition matchTopLevel (importPath : str) : option (str * str) :=
  match_groups (js "@/") (Plus (Class not_slash)) (js "/")
               (Plus (Class any_char)) importPath.

(** ** Reports and control flow *)

Inductive MessageId : Type :=
| invalidParentImport
| invalidSubdirectoryImport
| tooManyDirectorySegments
| invalidTopLevelImport
| invalidTopLevelImportDepth
| invalidTopLevelImportChildren.

(** A statement runs on the reports made so far and either falls through
    to the next statement or returns from the handler. *)
Inductive completion : Type := Normal | Return.

Definition stmt : Type := list MessageId -> completion * list MessageId.

(** [context.report({ node, messageId })] *)
Definition report (messageId : MessageId) : stmt :=
  fun reported => (Normal, reported ++ [messageId]).

Definition return_ : stmt := fun reported => (Return, reported).

Definition skip : stmt := fun reported => (Normal, reported).

Definition seq (a b : stmt) : stmt :=
  fun reported =>
    match a reported with
    | (Return, r) => (Return, r)
    | (Normal, r) => b r
    end.

Definition if_ (c : bool) (a : stmt) : stmt := if c then a else skip.

Notation "a ;; b" := (seq a b) (at level 61, right associativity).

(** ** The handler *)

(** Rule 1, the body of [if (importPath.startsWith('@/'))]: the shape
    [@/module-name/file-path], then the depth, then the entry grammars. *)
Definition topLevelImport (importPath : str) : stmt :=
  match matchTopLevel importPath with
  | None => report invalidTopLevelImport ;; return_
  | Some (moduleName, filePath) =>
      if_ (includes filePath SLASH)
          (report invalidTopLevelImportDepth ;; return_) ;;
      let fileName := stripExtension filePath in
      if_ (isChildrenEntry fileName)
          (report invalidTopLevelImportChildren ;; return_) ;;
      if_ (negb (isNormalEntry fileName))
          (report invalidTopLevelImport) ;;
      return_
  end.

(** Rule 2, the body of [if (importPath.startsWith('..'))]: at most two
    segments, and a children entry as file name. *)
Definition parentImport (importPath : str) : stmt :=
  let pathSegments := split importPath SLASH in
  if_ (2 <? length pathSegments)
      (report tooManyDirectorySegments ;; return_) ;;
  let fileName := stripExtension (basename importPath) in
  if_ (negb (isChildrenEntry fileName))
      (report invalidParentImport) ;;
  return_.

(** Rule 3, the body of [if (importPath.startsWith('./'))]: a sibling
    file is let through, a deeper path is refused, and one directory
    level must lead to a normal entry that is no children entry. *)
Definition subdirectoryImport (importPath : str) : stmt :=
  let pathWithoutPrefix := slice importPath 2 in
  let segments := split pathWithoutPrefix SLASH in
  if_ (length segments =? 1) return_ ;;
  if_ (2 <? length segments)
      (report tooManyDirectorySegments ;; return_) ;;
  let fileName := stripExtension (basename importPath) in
  if_ (negb (isNormalEntry fileName))
      (report invalidSubdirectoryImport ;; return_) ;;
  if_ (isChildrenEntry fileName)
      (report invalidSubdirectoryImport).

(** [ImportDeclaration(node)] with [importPath = node.source.value]. *)
Definition ImportDeclaration (importPath : str) : stmt :=
  if_ (negb (startsWith importPath (js ".")) && negb (startsWith importPath (js "@/")))
      return_ ;;
  if_ (startsWith importPath (js "@/")) (topLevelImport importPath) ;;
  if_ (startsWith importPath (js "..")) (parentImport importPath) ;;
  if_ (startsWith importPath (js "./")) (subdirectoryImport importPath).

(** The reports of one invocation, in order. *)
Definition reports (importPath : str) : list MessageId :=
  snd (ImportDeclaration importPath []).

(** The classifier of the specification: the violation kind the handler
    reports for a path, [None] when it reports nothing. *)
Definition classify (importPath : str) : option MessageId :=
  hd_error (reports importPath).

Create HintDb re.
#[local] Hint Constructors matches : re.

Ltac case_if :=
  match goal with
  | |- context [if ?c then _ else _] => destruct c eqn:?
  end.

(** ** The matcher and the words of a regular expression *)

Section Matcher.

Lemma app_nil_inv (s t : str) : s ++ t = [] -> s = [] /\ t = [].
Proof. destruct s; simpl; intros H; [auto | discriminate]. Qed.

Lemma nullable_matches (r : regex) : nullable r = true <-> matches r [].
Proof.
  induction r; simpl; split; intros H;
    try discriminate; auto with re.
  - inversion H.
  - inversion H.
  - apply andb_true_iff in H as [Ha Hb].
    change (@nil code_unit) with (@nil code_unit ++ []).
    constructor; [apply IHr1 | apply IHr2]; assumption.
  - inversion H as [ | | a b s t Hs Ht [Ea Eb] E | | | | ]; subst.
    apply app_nil_inv in E as [-> ->].
    apply andb_true_iff; split; [apply IHr1 | apply IHr2]; assumption.
  - apply orb_true_iff in H as [Ha | Hb];
      [apply MAltL, IHr1 | apply MAltR, IHr2]; assumption.
  - apply orb_true_iff.
    inversion H; subst; [left; apply IHr1 | right; apply IHr2]; assumption.
Qed.

Lemma deriv_sound (c : code_unit) (r : regex) :
  forall s, matches (deriv c r) s -> matches r (c :: s).
Proof.
  induction r; simpl; intros s H.
  - inversion H.
  - inversion H.
  - destruct (f c) eqn:Hf; inversion H; subst. constructor; assumption.
  - destruct (nullable r1) eqn:Hn.
    + inversion H as [ | | | a b s0 Hl | a b s0 Hr | | ]; subst.
      * inversion Hl; subst.
        change (c :: s0 ++ t) with ((c :: s0) ++ t).
        constructor; auto.
      * change (c :: s) with ([] ++ c :: s).
        constructor; [apply nullable_matches; assumption | auto].
    + inversion H; subst.
      change (c :: s0 ++ t) with ((c :: s0) ++ t).
      constructor; auto.
  - inversion H; subst; [apply MAltL | apply MAltR]; auto.
  - inversion H; subst.
    change (c :: s0 ++ t) with ((c :: s0) ++ t).
    constructor; auto.
Qed.

Lemma deriv_complete (c : code_unit) (r : regex) (s : str) :
  matches r (c :: s) -> matches (deriv c r) s.
Proof.
  intros H. remember (c :: s) as w eqn:E.
  revert c s E.
  induction H as [ | f d Hd | a b s1 t Ha IHa Hb IHb | a b s1 Ha IHa
                 | a b s1 Hb IHb | a | a s1 t Ha IHa Ht IHt ];
    intros c s E; simpl.
  - discriminate.
  - injection E as -> <-. rewrite Hd. constructor.
  - destruct s1 as [ | c1 s1 ]; simpl in E.
    + subst t. apply nullable_matches in Ha. rewrite Ha.
      apply MAltR. apply IHb. reflexivity.
    + injection E as -> <-.
      assert (Hc : matches (Cat (deriv c a) b) (s1 ++ t))
        by (constructor; [apply IHa; reflexivity | assumption]).
      destruct (nullable a); [apply MAltL | ]; assumption.
  - apply MAltL. apply IHa. assumption.
  - apply MAltR. apply IHb. assumption.
  - discriminate.
  - destruct s1 as [ | c1 s1 ]; simpl in E.
    + apply IHt in E. simpl in E. assumption.
    + injection E as -> <-.
      constructor; [apply IHa; reflexivity | assumption].
Qed.

(** The matcher decides membership in the language. *)
Lemma test_matches (s : str) : forall r, test r s = true <-> matches r s.
Proof.
  induction s as [ | c s IH ]; intros r; simpl.
  - apply nullable_matches.
  - rewrite IH. split; [apply deriv_sound | apply deriv_complete].
Qed.

Lemma replace_end_eq (r : regex) (s : str) :
  replace_end r s =
  if test r s then []
  else match s with
       | [] => []
       | c :: s' => c :: replace_end r s'
       end.
Proof. destruct s; reflexivity. Qed.

Lemma matches_Cat_inv (a b : regex) (s : str) :
  matches (Cat a b) s ->
  exists s1 s2, s = s1 ++ s2 /\ matches a s1 /\ matches b s2.
Proof. intros H. inversion H; subst. eauto. Qed.

Lemma matches_Alt_inv (a b : regex) (s : str) :
  matches (Alt a b) s -> matches a s \/ matches b s.
Proof. intros H. inversion H; subst; auto. Qed.

Lemma matches_Class_inv (f : code_unit -> bool) (s : str) :
  matches (Class f) s -> exists c, s = [c] /\ f c = true.
Proof. intros H. inversion H; subst. eauto. Qed.

Lemma matches_Chr_inv (c : code_unit) (s : str) :
  matches (Chr c) s -> s = [c].
Proof.
  intros H. apply matches_Class_inv in H as (d & -> & Hd).
  apply N.eqb_eq in Hd. subst. reflexivity.
Qed.

Lemma matches_Chr (c : code_unit) : matches (Chr c) [c].
Proof. constructor. apply N.eqb_refl. Qed.

Lemma matches_Lit (w s : str) : matches (Lit w) s <-> s = w.
Proof.
  revert s. induction w as [ | c w IH ]; intros s; simpl; split; intros H.
  - inversion H. reflexivity.
  - subst. constructor.
  - apply matches_Cat_inv in H as (s1 & s2 & -> & H1 & H2).
    apply matches_Chr_inv in H1. apply IH in H2. subst. reflexivity.
  - subst. change (c :: w) with ([c] ++ w).
    constructor; [apply matches_Chr | apply IH; reflexivity].
Qed.

(** A non-empty word of [r*] starts with a non-empty word of [r]. *)
Lemma matches_Star_cons (a : regex) (c : code_unit) (s : str) :
  matches (Star a) (c :: s) ->
  exists s1 s2, s = s1 ++ s2 /\ matches a (c :: s1) /\ matches (Star a) s2.
Proof.
  intros H. remember (Star a) as r eqn:Er. remember (c :: s) as w eqn:Ew.
  revert Er Ew.
  induction H as [ | | | | | a' | a' s1 t Ha _ Ht IHt ];
    intros Er Ew; try discriminate.
  injection Er as ->.
  destruct s1 as [ | c1 s1 ]; simpl in Ew.
  - apply IHt; [reflexivity | assumption].
  - injection Ew as -> <-. eauto.
Qed.

Lemma matches_Star_Class (f : code_unit -> bool) (s : str) :
  matches (Star (Class f)) s <-> forallb f s = true.
Proof.
  induction s as [ | c s IH ]; simpl; split; intros H.
  - reflexivity.
  - constructor.
  - apply matches_Star_cons in H as (s1 & s2 & -> & H1 & H2).
    apply matches_Class_inv in H1 as (d & E & Hd).
    injection E as Ec Es. subst d s1. simpl in *.
    rewrite Hd. apply IH. assumption.
  - apply andb_true_iff in H as [Hc Hs].
    change (c :: s) with ([c] ++ s).
    constructor; [constructor; assumption | apply IH; assumption].
Qed.

Lemma matches_Plus_Class (f : code_unit -> bool) (s : str) :
  matches (Plus (Class f)) s <-> s <> [] /\ forallb f s = true.
Proof.
  unfold Plus. split.
  - intros H. apply matches_Cat_inv in H as (s1 & s2 & -> & H1 & H2).
    apply matches_Class_inv in H1 as (c & -> & Hc).
    apply matches_Star_Class in H2. simpl. rewrite Hc, H2.
    split; [discriminate | reflexivity].
  - intros [Hne H]. destruct s as [ | c s ]; [contradiction | ].
    simpl in H. apply andb_true_iff in H as [Hc Hs].
    change (c :: s) with ([c] ++ s).
    constructor; [constructor; assumption | apply matches_Star_Class; assumption].
Qed.

End Matcher.

(** ** String operations *)

Section Strings.

Lemma startsWith_app (w t : str) : startsWith (w ++ t) w = true.
Proof.
  induction w as [ | c w IH ]; simpl; [reflexivity | ].
  rewrite N.eqb_refl. assumption.
Qed.

Lemma startsWith_inv (w : str) :
  forall s, startsWith s w = true -> exists t, s = w ++ t.
Proof.
  induction w as [ | c w IH ]; intros s H; simpl in *.
  - exists s. reflexivity.
  - destruct s as [ | d s ]; [discriminate | ].
    apply andb_true_iff in H as [Hd Hs].
    apply N.eqb_eq in Hd. subst d.
    destruct (IH _ Hs) as [t ->]. exists t. reflexivity.
Qed.

Lemma includes_app (a b : str) (c : code_unit) :
  includes (a ++ b) c = includes a c || includes b c.
Proof. apply existsb_app. Qed.

Lemma includes_rev (s : str) (c : code_unit) :
  includes (rev s) c = includes s c.
Proof.
  induction s as [ | d s IH ]; simpl; [reflexivity | ].
  rewrite includes_app, IH. simpl.
  rewrite orb_false_r. apply orb_comm.
Qed.

Lemma includes_not_slash (s : str) :
  includes s SLASH = false <-> forallb not_slash s = true.
Proof.
  induction s as [ | d s IH ]; simpl; [tauto | ].
  unfold not_slash at 1, is_slash.
  rewrite orb_false_iff, andb_true_iff, negb_true_iff. tauto.
Qed.

(** Every string is free of the separator or splits at its first one. *)
Lemma first_separator (c : code_unit) (s : str) :
  includes s c = false \/
  exists a b, s = a ++ c :: b /\ includes a c = false.
Proof.
  induction s as [ | d s IH ]; simpl; [left; reflexivity | ].
  destruct (d =? c)%N eqn:Hd.
  - right. apply N.eqb_eq in Hd. subst d.
    exists [], s. split; reflexivity.
  - destruct IH as [H | (a & b & -> & Ha)]; [left; assumption | ].
    right. exists (d :: a), b. simpl. rewrite Hd. split; [reflexivity | assumption].
Qed.

Lemma first_separator_unique (c : code_unit) (a a' b b' : str) :
  includes a c = false -> includes a' c = false ->
  a ++ c :: b = a' ++ c :: b' -> a = a' /\ b = b'.
Proof.
  revert a'. induction a as [ | d a IH ]; intros a' Ha Ha' E.
  - destruct a' as [ | d' a' ]; simpl in *.
    + injection E as ->. split; reflexivity.
    + injection E as <- _. rewrite N.eqb_refl in Ha'. discriminate.
  - destruct a' as [ | d' a' ]; simpl in *.
    + injection E as -> _. rewrite N.eqb_refl in Ha. discriminate.
    + injection E as <- E.
      apply orb_false_iff in Ha as [_ Ha], Ha' as [_ Ha'].
      destruct (IH _ Ha Ha' E) as [-> ->]. split; reflexivity.
Qed.

Lemma split_not_nil (s : str) (c : code_unit) : split s c <> [].
Proof.
  destruct s as [ | d s ]; simpl; [discriminate | ].
  destruct (d =? c)%N; [discriminate | ].
  destruct (split s c); discriminate.
Qed.

Lemma split_no_separator (s : str) (c : code_unit) :
  includes s c = false -> split s c = [s].
Proof.
  induction s as [ | d s IH ]; simpl; intros H; [reflexivity | ].
  apply orb_false_iff in H as [Hd Hs].
  rewrite Hd, (IH Hs). reflexivity.
Qed.

Lemma split_separator (a b : str) (c : code_unit) :
  includes a c = false -> split (a ++ c :: b) c = a :: split b c.
Proof.
  induction a as [ | d a IH ]; simpl; intros H.
  - rewrite N.eqb_refl. reflexivity.
  - apply orb_false_iff in H as [Hd Ha].
    rewrite Hd, (IH Ha). reflexivity.
Qed.

Lemma split_length_1 (s : str) (c : code_unit) :
  length (split s c) = 1 <-> includes s c = false.
Proof.
  split.
  - intros H. destruct (first_separator c s) as [Hs | (a & b & -> & Ha)];
      [assumption | ].
    rewrite split_separator in H by assumption. simpl in H.
    pose proof (split_not_nil b c) as Hb.
    destruct (split b c); [contradiction | discriminate].
  - intros H. rewrite split_no_separator by assumption. reflexivity.
Qed.

(** Appending a separator-free suffix keeps the number of segments. *)
Lemma split_length_app (s e : str) (c : code_unit) :
  includes e c = false -> length (split (s ++ e) c) = length (split s c).
Proof.
  intros He. induction s as [ | d s IH ]; simpl.
  - rewrite split_no_separator by assumption. reflexivity.
  - destruct (d =? c)%N; simpl; [rewrite IH; reflexivity | ].
    pose proof (split_not_nil (s ++ e) c) as H1.
    pose proof (split_not_nil s c) as H2.
    destruct (split (s ++ e) c), (split s c); try contradiction.
    simpl in *. assumption.
Qed.

Lemma takeWhile_all (f : code_unit -> bool) (s : str) :
  forallb f s = true -> takeWhile f s = s.
Proof.
  induction s as [ | c s IH ]; simpl; intros H; [reflexivity | ].
  apply andb_true_iff in H as [Hc Hs]. rewrite Hc, (IH Hs). reflexivity.
Qed.

Lemma takeWhile_stop (f : code_unit -> bool) (a b : str) (c : code_unit) :
  forallb f a = true -> f c = false -> takeWhile f (a ++ c :: b) = a.
Proof.
  induction a as [ | d a IH ]; simpl; intros Ha Hc.
  - rewrite Hc. reflexivity.
  - apply andb_true_iff in Ha as [Hd Ha]. rewrite Hd, (IH Ha Hc). reflexivity.
Qed.

Lemma dropWhile_keep (f : code_unit -> bool) (s : str) :
  s <> [] -> forallb (fun c => negb (f c)) s = true ->
  forall t, dropWhile f (s ++ t) = s ++ t.
Proof.
  destruct s as [ | c s ]; [contradiction | ]. simpl. intros _ H t.
  apply andb_true_iff in H as [Hc _]. apply negb_true_iff in Hc.
  rewrite Hc. reflexivity.
Qed.

Lemma not_slash_rev (s : str) :
  includes s SLASH = false -> forallb not_slash (rev s) = true.
Proof. intros H. apply includes_not_slash. rewrite includes_rev. assumption. Qed.

Lemma rev_not_nil (s : str) : s <> [] -> rev s <> [].
Proof.
  intros H E. apply H. rewrite <- (rev_involutive s), E. reflexivity.
Qed.

(** The base name of a path without separator is the path. *)
Lemma basename_no_separator (s : str) :
  includes s SLASH = false -> basename s = s.
Proof.
  intros H. unfold basename. pose proof (not_slash_rev _ H) as Hr.
  destruct (list_eq_dec N.eq_dec s []) as [-> | Hne]; [reflexivity | ].
  assert (Hd : dropWhile is_slash (rev s) = rev s).
  { rewrite <- (app_nil_r (rev s)). apply dropWhile_keep.
    - apply rev_not_nil. assumption.
    - assumption. }
  rewrite Hd, takeWhile_all by assumption. apply rev_involutive.
Qed.

(** The base name is the last segment when that segment is not empty. *)
Lemma basename_last_segment (a b : str) :
  includes b SLASH = false -> b <> [] -> basename (a ++ SLASH :: b) = b.
Proof.
  intros Hb Hne. unfold basename.
  rewrite rev_app_distr. simpl. rewrite <- app_assoc. simpl.
  rewrite dropWhile_keep;
    [ | apply rev_not_nil; assumption | apply not_slash_rev; assumption ].
  rewrite takeWhile_stop; [apply rev_involutive | apply not_slash_rev; assumption | reflexivity].
Qed.

(** A trailing separator is ignored. *)
Lemma basename_trailing_separator (a : str) :
  basename (a ++ [SLASH]) = basename a.
Proof. unfold basename. rewrite rev_app_distr. reflexivity. Qed.

End Strings.

(** ** The patterns *)

Section Patterns.

(** The words of the extension pattern. *)
Lemma extension_words (e : str) :
  test EXTENSION e = true <->
  e = js ".ts" \/ e = js ".tsx" \/ e = js ".js" \/ e = js ".jsx".
Proof.
  split.
  - intros H. apply test_matches in H. unfold EXTENSION in H.
    apply matches_Cat_inv in H as (s1 & s2 & -> & H1 & H2).
    apply matches_Chr_inv in H1. subst s1.
    repeat (apply matches_Alt_inv in H2 as [H2 | H2]);
      apply matches_Lit in H2; subst s2; auto.
  - intros [-> | [-> | [-> | ->]]]; reflexivity.
Qed.

Lemma extension_no_separator (e : str) :
  test EXTENSION e = true -> includes e SLASH = false.
Proof.
  intros H. apply extension_words in H as [-> | [-> | [-> | ->]]]; reflexivity.
Qed.

Lemma extension_no_line_terminator (e : str) :
  test EXTENSION e = true -> forallb any_char e = true.
Proof.
  intros H. apply extension_words in H as [-> | [-> | [-> | ->]]]; reflexivity.
Qed.

Lemma extension_not_nil (e : str) : test EXTENSION e = true -> e <> [].
Proof. intros H ->. discriminate. Qed.

(** A recognized extension is a dot, two letters and at most one more. *)
Lemma extension_shape (e : str) :
  test EXTENSION e = true ->
  exists x y z, e = DOT :: x :: y :: z /\ x <> DOT /\ length z <= 1.
Proof.
  intros H. apply extension_words in H as [-> | [-> | [-> | ->]]];
    cbv [js String.list_ascii_of_string map];
    do 3 eexists; (split; [reflexivity | split; [discriminate | simpl; lia]]).
Qed.

(** No recognized extension has another one as a proper suffix. *)
Lemma extension_not_longer (c : code_unit) (f e : str) :
  test EXTENSION e = true -> test EXTENSION (c :: f ++ e) = false.
Proof.
  intros He. destruct (test EXTENSION (c :: f ++ e)) eqn:H; [ | reflexivity ].
  exfalso.
  apply extension_shape in He as (x & y & z & -> & Hx & Hz).
  apply extension_shape in H as (x' & y' & z' & H & Hx' & Hz').
  destruct f as [ | d f ]; simpl in H.
  - injection H as _ H _. congruence.
  - apply (f_equal (@length code_unit)) in H. simpl in H.
    rewrite length_app in H. simpl in H. lia.
Qed.

(** Stripping removes a recognized extension, whatever is before it. *)
Lemma stripExtension_app (f e : str) :
  test EXTENSION e = true -> stripExtension (f ++ e) = f.
Proof.
  intros He. unfold stripExtension.
  induction f as [ | c f IH ]; rewrite replace_end_eq.
  - simpl app. rewrite He. reflexivity.
  - simpl app. rewrite (extension_not_longer c f e He), IH. reflexivity.
Qed.

Lemma stripExtension_dot_dot (t : str) :
  stripExtension (DOT :: DOT :: t) = DOT :: stripExtension (DOT :: t).
Proof.
  unfold stripExtension.
  assert (H : test EXTENSION (DOT :: DOT :: t) = false).
  { destruct (test EXTENSION (DOT :: DOT :: t)) eqn:H; [ | reflexivity ].
    apply extension_words in H as [H | [H | [H | H]]]; discriminate H. }
  rewrite replace_end_eq, H. reflexivity.
Qed.

(** A children entry starts with [entry..]. *)
Lemma isChildrenEntry_prefix (s : str) :
  isChildrenEntry s = true -> exists t, s = js "entry.." ++ t.
Proof.
  intros H. apply test_matches in H. unfold CHILDREN_ENTRY in H.
  apply matches_Cat_inv in H as (s1 & s2 & -> & H1 & _).
  apply matches_Lit in H1. subst s1. eauto.
Qed.

Lemma isChildrenEntry_dot (t : str) : isChildrenEntry (DOT :: t) = false.
Proof.
  destruct (isChildrenEntry (DOT :: t)) eqn:H; [ | reflexivity ].
  apply isChildrenEntry_prefix in H as [u H]. discriminate H.
Qed.

(** A name with two leading dots is no children entry, stripped or not. *)
Lemma isChildrenEntry_strip_dot_dot (t : str) :
  isChildrenEntry (stripExtension (DOT :: DOT :: t)) = false.
Proof. rewrite stripExtension_dot_dot. apply isChildrenEntry_dot. Qed.

(** After [entry] a normal entry continues with groups of a dot and a
    non-empty run of segment characters. *)
Lemma isNormalEntry_prefix (s : str) :
  isNormalEntry s = true ->
  exists t, s = js "entry" ++ t /\
            matches (Star (Cat (Chr DOT) (Plus (Class seg_char)))) t.
Proof.
  intros H. apply test_matches in H. unfold NORMAL_ENTRY in H.
  apply matches_Cat_inv in H as (s1 & s2 & -> & H1 & H2).
  apply matches_Lit in H1. subst s1. eauto.
Qed.

Lemma segment_group_head (c d : code_unit) (t : str) :
  matches (Star (Cat (Chr DOT) (Plus (Class seg_char)))) (c :: d :: t) ->
  c = DOT /\ seg_char d = true.
Proof.
  intros H. apply matches_Star_cons in H as (s1 & s2 & E & H1 & _).
  apply matches_Cat_inv in H1 as (u & v & E1 & Hu & Hv).
  apply matches_Chr_inv in Hu. subst u.
  apply matches_Plus_Class in Hv as [Hne Hv].
  destruct v as [ | d' v ]; [contradiction | ].
  simpl in E1. injection E1 as -> E1.
  split; [reflexivity | ].
  destruct s1 as [ | d'' s1 ]; [discriminate E1 | ].
  injection E1 as -> _. simpl in E. injection E as ->.
  simpl in Hv. apply andb_true_iff in Hv as [Hd _]. assumption.
Qed.

(** The two entry grammars have no word in common. *)
Lemma entry_grammars_disjoint (s : str) :
  isNormalEntry s = true -> isChildrenEntry s = true -> False.
Proof.
  intros Hn Hc.
  apply isNormalEntry_prefix in Hn as (t & -> & Ht).
  apply isChildrenEntry_prefix in Hc as (u & E).
  change (js "entry..") with (js "entry" ++ [DOT; DOT]) in E.
  rewrite <- app_assoc in E. apply app_inv_head in E. subst t.
  apply segment_group_head in Ht as [_ Hd]. discriminate Hd.
Qed.

End Patterns.

(** ** The capturing match of the top-level branch *)

Section TopLevelMatch.

Lemma match_groups_from_eq (g1 : regex) (mid : str) (g2 : regex) (s : str) (n : nat) :
  match_groups_from g1 mid g2 s n =
  if test g1 (firstn n s) && startsWith (skipn n s) mid
     && test g2 (slice (skipn n s) (length mid))
  then Some (firstn n s, slice (skipn n s) (length mid))
  else match n with
       | O => None
       | S n' => match_groups_from g1 mid g2 s n'
       end.
Proof. destruct n; reflexivity. Qed.

Lemma match_groups_from_sound (g1 : regex) (mid : str) (g2 : regex) (s : str) :
  forall n a b,
    match_groups_from g1 mid g2 s n = Some (a, b) ->
    exists k, a = firstn k s /\ startsWith (skipn k s) mid = true /\
              b = skipn (length mid) (skipn k s) /\
              test g1 a = true /\ test g2 b = true.
Proof.
  assert (Hit : forall n a b,
             test g1 (firstn n s) && startsWith (skipn n s) mid
             && test g2 (slice (skipn n s) (length mid)) = true ->
             Some (firstn n s, slice (skipn n s) (length mid)) = Some (a, b) ->
             exists k, a = firstn k s /\ startsWith (skipn k s) mid = true /\
                       b = skipn (length mid) (skipn k s) /\
                       test g1 a = true /\ test g2 b = true).
  { intros n a b Hc H. injection H as <- <-.
    apply andb_true_iff in Hc as [Hc H2].
    apply andb_true_iff in Hc as [H1 Hm].
    exists n. repeat split; assumption. }
  induction n as [ | n IH ]; intros a b; rewrite match_groups_from_eq;
    match goal with
    | |- context [if ?c then _ else _] => destruct c eqn:Hc
    end; intros H; try discriminate; eauto.
Qed.

Lemma match_groups_from_complete (g1 : regex) (mid : str) (g2 : regex) (s : str) :
  forall n k,
    k <= n ->
    test g1 (firstn k s) = true ->
    startsWith (skipn k s) mid = true ->
    test g2 (skipn (length mid) (skipn k s)) = true ->
    match_groups_from g1 mid g2 s n <> None.
Proof.
  induction n as [ | n IH ]; intros k Hk H1 Hm H2;
    rewrite match_groups_from_eq;
    match goal with
    | |- context [if ?c then _ else _] => destruct c eqn:Hc
    end; try discriminate.
  - assert (k = 0) by lia. subst k. unfold slice in Hc.
    rewrite H1, Hm, H2 in Hc. discriminate.
  - assert (Hk' : k = S n \/ k <= n) by lia.
    destruct Hk' as [-> | Hk'].
    + unfold slice in Hc. rewrite H1, Hm, H2 in Hc. discriminate.
    + eapply IH; eassumption.
Qed.

(** What a successful match captures. *)
Lemma matchTopLevel_sound (p m r : str) :
  matchTopLevel p = Some (m, r) ->
  p = js "@/" ++ m ++ SLASH :: r /\
  m <> [] /\ includes m SLASH = false /\
  r <> [] /\ forallb any_char r = true.
Proof.
  unfold matchTopLevel, match_groups.
  destruct (startsWith p (js "@/")) eqn:Hp; [ | discriminate ].
  apply startsWith_inv in Hp as [x ->].
  intros H. apply match_groups_from_sound in H as (k & Hm & Hs & Hr & H1 & H2).
  change (slice (js "@/" ++ x) (length (js "@/"))) with x in *.
  apply startsWith_inv in Hs as [t Ht].
  change (js "/" ++ t) with (SLASH :: t) in Ht.
  rewrite Ht in Hr. change (skipn (length (js "/")) (SLASH :: t)) with t in Hr.
  subst t.
  apply test_matches, matches_Plus_Class in H1 as [Hne Hns].
  apply test_matches, matches_Plus_Class in H2 as [Hre Hrs].
  apply includes_not_slash in Hns.
  repeat split; try assumption.
  rewrite <- (firstn_skipn k x) at 1. rewrite <- Hm, Ht. reflexivity.
Qed.

(** The match succeeds on every path of that shape. *)
Lemma matchTopLevel_complete (m r : str) :
  m <> [] -> includes m SLASH = false ->
  r <> [] -> forallb any_char r = true ->
  matchTopLevel (js "@/" ++ m ++ SLASH :: r) = Some (m, r).
Proof.
  intros Hm Hms Hr Hrs.
  destruct (matchTopLevel (js "@/" ++ m ++ SLASH :: r)) as [[a b] | ] eqn:E.
  - apply matchTopLevel_sound in E as (E & _ & Ha & _).
    apply app_inv_head in E.
    apply first_separator_unique in E as [-> ->]; auto.
  - exfalso. revert E. unfold matchTopLevel, match_groups.
    rewrite startsWith_app.
    change (slice (js "@/" ++ m ++ SLASH :: r) (length (js "@/")))
      with (m ++ SLASH :: r).
    apply match_groups_from_complete with (k := length m).
    + rewrite length_app. simpl. rewrite length_app. lia.
    + rewrite firstn_app, Nat.sub_diag, firstn_all. simpl. rewrite app_nil_r.
      apply test_matches, matches_Plus_Class.
      split; [assumption | apply includes_not_slash; assumption].
    + rewrite skipn_app, Nat.sub_diag, skipn_all. reflexivity.
    + rewrite skipn_app, Nat.sub_diag, skipn_all. simpl.
      apply test_matches, matches_Plus_Class. split; assumption.
Qed.

Lemma matchTopLevel_None (p : str) :
  matchTopLevel p = None ->
  forall m r, p = js "@/" ++ m ++ SLASH :: r ->
              m <> [] -> includes m SLASH = false ->
              r <> [] -> forallb any_char r = true -> False.
Proof.
  intros H m r -> Hm Hms Hr Hrs.
  rewrite matchTopLevel_complete in H by assumption. discriminate.
Qed.

End TopLevelMatch.

(** ** The handler, branch by branch *)

Section Handler.

Lemma run_topLevelImport (p : str) (log : list MessageId) :
  topLevelImport p log =
  (Return,
   log ++ match matchTopLevel p with
          | None => [invalidTopLevelImport]
          | Some (_, filePath) =>
              if includes filePath SLASH then [invalidTopLevelImportDepth]
              else if isChildrenEntry (stripExtension filePath)
                   then [invalidTopLevelImportChildren]
                   else if isNormalEntry (stripExtension filePath) then []
                        else [invalidTopLevelImport]
          end).
Proof.
  unfold topLevelImport.
  destruct (matchTopLevel p) as [[m f] | ]; cbv [seq if_ report return_ skip];
    [ | reflexivity ].
  destruct (includes f SLASH); [reflexivity | ].
  destruct (isChildrenEntry (stripExtension f)); [reflexivity | ].
  destruct (isNormalEntry (stripExtension f)); simpl;
    rewrite ?app_nil_r; reflexivity.
Qed.

Lemma run_parentImport (p : str) (log : list MessageId) :
  parentImport p log =
  (Return,
   log ++ if 2 <? length (split p SLASH) then [tooManyDirectorySegments]
          else if isChildrenEntry (stripExtension (basename p)) then []
               else [invalidParentImport]).
Proof.
  cbv [parentImport seq if_ report return_ skip].
  destruct (2 <? length (split p SLASH)); [reflexivity | ].
  destruct (isChildrenEntry (stripExtension (basename p))); simpl;
    rewrite ?app_nil_r; reflexivity.
Qed.

Lemma run_subdirectoryImport (p : str) (log : list MessageId) :
  snd (subdirectoryImport p log) =
  log ++ if length (split (slice p 2) SLASH) =? 1 then []
         else if 2 <? length (split (slice p 2) SLASH)
              then [tooManyDirectorySegments]
              else if isNormalEntry (stripExtension (basename p))
                   then if isChildrenEntry (stripExtension (basename p))
                        then [invalidSubdirectoryImport]
                        else []
                   else [invalidSubdirectoryImport].
Proof.
  cbv [subdirectoryImport seq if_ report return_ skip].
  destruct (length (split (slice p 2) SLASH) =? 1);
    [simpl; rewrite app_nil_r; reflexivity | ].
  destruct (2 <? length (split (slice p 2) SLASH)); [reflexivity | ].
  destruct (isNormalEntry (stripExtension (basename p))); simpl;
    [ | reflexivity ].
  destruct (isChildrenEntry (stripExtension (basename p))); simpl;
    rewrite ?app_nil_r; reflexivity.
Qed.

(** The reports of a path outside the scope of the rule. *)
Lemma reports_out_of_scope (p : str) :
  startsWith p (js ".") = false -> startsWith p (js "@/") = false ->
  reports p = [].
Proof.
  intros H1 H2. unfold reports, ImportDeclaration.
  cbv [seq if_ return_ skip]. rewrite H1, H2. reflexivity.
Qed.

Lemma reports_topLevel (p : str) :
  startsWith p (js "@/") = true ->
  reports p = match matchTopLevel p with
              | None => [invalidTopLevelImport]
              | Some (_, filePath) =>
                  if includes filePath SLASH then [invalidTopLevelImportDepth]
                  else if isChildrenEntry (stripExtension filePath)
                       then [invalidTopLevelImportChildren]
                       else if isNormalEntry (stripExtension filePath) then []
                            else [invalidTopLevelImport]
              end.
Proof.
  intros H. unfold reports, ImportDeclaration.
  unfold seq at 1. unfold if_ at 1. rewrite H, andb_false_r.
  unfold skip at 1. unfold seq at 1. unfold if_ at 1.
  rewrite run_topLevelImport. reflexivity.
Qed.

Lemma startsWith_dot_dot (p : str) :
  startsWith p (js "..") = true ->
  startsWith p (js ".") = true /\ startsWith p (js "@/") = false /\
  exists t, p = DOT :: DOT :: t.
Proof.
  intros H. apply startsWith_inv in H as [t ->].
  repeat split. exists t. reflexivity.
Qed.

Lemma startsWith_dot_slash (p : str) :
  startsWith p (js "./") = true ->
  startsWith p (js ".") = true /\ startsWith p (js "@/") = false /\
  startsWith p (js "..") = false /\ exists t, p = DOT :: SLASH :: t.
Proof.
  intros H. apply startsWith_inv in H as [t ->].
  repeat split. exists t. reflexivity.
Qed.

Lemma reports_parent (p : str) :
  startsWith p (js "..") = true ->
  reports p = if 2 <? length (split p SLASH) then [tooManyDirectorySegments]
              else if isChildrenEntry (stripExtension (basename p)) then []
                   else [invalidParentImport].
Proof.
  intros H. destruct (startsWith_dot_dot p H) as (H1 & H2 & _).
  unfold reports, ImportDeclaration.
  unfold seq at 1. unfold if_ at 1. rewrite H1, H2.
  unfold skip at 1. cbn [negb andb].
  unfold seq at 1. unfold if_ at 1. unfold skip at 1.
  unfold seq at 1. unfold if_ at 1. rewrite H.
  rewrite run_parentImport. reflexivity.
Qed.

Lemma reports_subdirectory (p : str) :
  startsWith p (js "./") = true ->
  reports p = if length (split (slice p 2) SLASH) =? 1 then []
              else if 2 <? length (split (slice p 2) SLASH)
                   then [tooManyDirectorySegments]
                   else if isNormalEntry (stripExtension (basename p))
                        then if isChildrenEntry (stripExtension (basename p))
                             then [invalidSubdirectoryImport]
                             else []
                        else [invalidSubdirectoryImport].
Proof.
  intros H. destruct (startsWith_dot_slash p H) as (H1 & H2 & H3 & _).
  unfold reports, ImportDeclaration.
  unfold seq at 1. unfold if_ at 1. rewrite H1, H2.
  unfold skip at 1. cbn [negb andb].
  unfold seq at 1. unfold if_ at 1. unfold skip at 1.
  unfold seq at 1. unfold if_ at 1. rewrite H3. unfold skip at 1.
  unfold if_ at 1. rewrite H.
  rewrite run_subdirectoryImport. reflexivity.
Qed.

(** A path in none of the three branches is not reported. *)
Lemma reports_no_branch (p : str) :
  startsWith p (js "@/") = false -> startsWith p (js "..") = false ->
  startsWith p (js "./") = false -> reports p = [].
Proof.
  intros H1 H2 H3. unfold reports, ImportDeclaration.
  cbv [seq if_ return_ skip]. rewrite H1, H2, H3.
  destruct (negb (startsWith p (js ".")) && negb false); reflexivity.
Qed.

End Handler.

(** ** File names and segments *)

Section FileName.

Lemma last_separator_unique (c : code_unit) (a a' b b' : str) :
  includes b c = false -> includes b' c = false ->
  a ++ c :: b = a' ++ c :: b' -> a = a' /\ b = b'.
Proof.
  intros Hb Hb' E. apply (f_equal (@rev code_unit)) in E.
  rewrite !rev_app_distr in E. simpl in E. rewrite <- !app_assoc in E.
  simpl in E.
  apply first_separator_unique in E as [E1 E2];
    [ | rewrite includes_rev; assumption | rewrite includes_rev; assumption ].
  apply (f_equal (@rev code_unit)) in E1, E2.
  rewrite !rev_involutive in E1, E2. auto.
Qed.

(** The base name of a directory part and a non-empty, separator-free
    last segment is that segment. *)
Lemma basename_final (d f : str) :
  d = [] \/ (exists d', d = d' ++ [SLASH]) ->
  includes f SLASH = false -> f <> [] -> basename (d ++ f) = f.
Proof.
  intros [-> | [d' ->]] Hf Hne.
  - apply basename_no_separator. assumption.
  - rewrite <- app_assoc. apply basename_last_segment; assumption.
Qed.

Lemma isChildrenEntry_nil : isChildrenEntry (stripExtension []) = false.
Proof. reflexivity. Qed.

(** In the parent branch with at most two segments, the base name and
    the last segment are the same children entry or none is. *)
Lemma parent_file_name (p : str) :
  startsWith p (js "..") = true ->
  (2 <? length (split p SLASH)) = false ->
  isChildrenEntry (stripExtension (basename p)) =
  isChildrenEntry (stripExtension (last (split p SLASH) [])).
Proof.
  intros H Hlen. apply Nat.ltb_ge in Hlen.
  destruct (first_separator SLASH p) as [Hs | (a & b & -> & Ha)].
  - rewrite split_no_separator, basename_no_separator by assumption.
    reflexivity.
  - rewrite split_separator in * by assumption. simpl in Hlen.
    assert (Hb : includes b SLASH = false).
    { apply split_length_1. pose proof (split_not_nil b SLASH).
      destruct (split b SLASH) as [ | x [ | y l ] ]; simpl in *;
        [contradiction | reflexivity | lia]. }
    rewrite (split_no_separator b SLASH Hb). simpl last.
    destruct b as [ | c b ].
    + rewrite basename_trailing_separator, basename_no_separator by assumption.
      apply startsWith_inv in H as [t E].
      change (js ".." ++ t) with (DOT :: DOT :: t) in E.
      destruct a as [ | x [ | y a ] ]; simpl in E; try discriminate E.
      injection E as Ex Ey _. subst x y.
      rewrite isChildrenEntry_strip_dot_dot. reflexivity.
    + rewrite basename_last_segment by (assumption || discriminate).
      reflexivity.
Qed.

End FileName.

(** ** One extension more *)

Section Extension.

Lemma startsWith_app_r (s w t : str) :
  startsWith s w = true -> startsWith (s ++ t) w = true.
Proof.
  intros H. apply startsWith_inv in H as [u ->].
  rewrite <- app_assoc. apply startsWith_app.
Qed.

Lemma matchTopLevel_no_separator (x : str) :
  includes x SLASH = false -> matchTopLevel (js "@/" ++ x) = None.
Proof.
  intros Hx. destruct (matchTopLevel (js "@/" ++ x)) as [[m r] | ] eqn:E;
    [ | reflexivity ].
  apply matchTopLevel_sound in E as (E & _).
  apply app_inv_head in E. subst x.
  rewrite includes_app in Hx. simpl in Hx.
  rewrite orb_true_r in Hx. discriminate Hx.
Qed.

(** The match on a path cut at the first separator after the marker. *)
Lemma matchTopLevel_decomposed (m r : str) :
  includes m SLASH = false ->
  matchTopLevel (js "@/" ++ m ++ SLASH :: r) =
  if negb (length m =? 0) && negb (length r =? 0) && forallb any_char r
  then Some (m, r) else None.
Proof.
  intros Hm.
  destruct (negb (length m =? 0) && negb (length r =? 0) && forallb any_char r)
    eqn:Hc.
  - apply andb_true_iff in Hc as [Hc H3].
    apply andb_true_iff in Hc as [H1 H2].
    apply matchTopLevel_complete; try assumption.
    + intros ->. discriminate H1.
    + intros ->. discriminate H2.
  - destruct (matchTopLevel (js "@/" ++ m ++ SLASH :: r)) as [[a b] | ] eqn:E;
      [ | reflexivity ].
    apply matchTopLevel_sound in E as (E & Ha & Has & Hb & Hbs).
    apply app_inv_head in E.
    apply first_separator_unique in E as [-> ->]; try assumption.
    rewrite Hbs in Hc.
    destruct a; [contradiction | ]. destruct b; [contradiction | ].
    discriminate Hc.
Qed.

(** In the subdirectory branch the file name is the last segment when
    that segment is not empty. *)
Lemma subdirectory_branch_file_segment (p : str) :
  startsWith p (js "./") = true ->
  last (split (slice p 2) SLASH) [] <> [] ->
  classify p =
  if length (split (slice p 2) SLASH) =? 1 then None
  else if 2 <? length (split (slice p 2) SLASH)
       then Some tooManyDirectorySegments
       else if isNormalEntry (stripExtension (last (split (slice p 2) SLASH) []))
               && negb (isChildrenEntry
                          (stripExtension (last (split (slice p 2) SLASH) [])))
            then None
            else Some invalidSubdirectoryImport.
Proof.
  intros H Hlast. unfold classify. rewrite (reports_subdirectory p H).
  apply startsWith_inv in H as [t ->].
  change (slice (js "./" ++ t) 2) with t in *.
  destruct (first_separator SLASH t) as [Hs | (a & b & -> & Ha)].
  - rewrite split_no_separator by assumption. reflexivity.
  - rewrite split_separator in * by assumption.
    pose proof (split_not_nil b SLASH) as Hnil.
    destruct (split b SLASH) as [ | x [ | y l ] ] eqn:Eb;
      [contradiction | | reflexivity].
    assert (Hb : includes b SLASH = false)
      by (apply split_length_1; rewrite Eb; reflexivity).
    rewrite split_no_separator in Eb by assumption. injection Eb as <-.
    simpl in Hlast. simpl length. simpl last. cbn [Nat.eqb Nat.ltb Nat.leb].
    rewrite app_assoc, basename_last_segment by assumption.
    destruct (isNormalEntry (stripExtension b)),
      (isChildrenEntry (stripExtension b)); reflexivity.
Qed.

End Extension.

(** ** The words of the two entry grammars *)

Section Grammar.

Lemma matches_Star_app (a : regex) (s t : str) :
  matches (Star a) s -> matches (Star a) t -> matches (Star a) (s ++ t).
Proof.
  intros Hs Ht. remember (Star a) as r eqn:Er. revert Er.
  induction Hs as [ | | | | | a' | a' s1 s2 H1 _ H2 IH2 ];
    intros Er; try discriminate.
  - assumption.
  - injection Er as ->. rewrite <- app_assoc.
    constructor; [assumption | apply IH2; auto].
Qed.

(** A word of [r*] is a concatenation of words of [r]. *)
Lemma matches_Star_concat (a : regex) (t : str) :
  matches (Star a) t <->
  exists ws, Forall (matches a) ws /\ t = concat ws.
Proof.
  split.
  - intros H. remember (Star a) as r eqn:Er. revert Er.
    induction H as [ | | | | | a' | a' s1 s2 H1 _ H2 IH2 ];
      intros Er; try discriminate.
    + exists []. split; [constructor | reflexivity].
    + injection Er as ->.
      destruct (IH2 eq_refl) as (ws & Hws & ->).
      exists (s1 :: ws). split; [constructor; assumption | reflexivity].
  - intros (ws & Hws & ->).
    induction Hws as [ | w ws Hw _ IH ]; simpl; constructor; assumption.
Qed.

(** The group [\.[0-9A-Za-z-]+] of the normal-entry pattern. *)
Lemma dot_segment_words (w : str) :
  matches (Cat (Chr DOT) (Plus (Class seg_char))) w <->
  exists g, w = DOT :: g /\ g <> [] /\ forallb seg_char g = true.
Proof.
  split.
  - intros H. apply matches_Cat_inv in H as (u & g & -> & Hu & Hg).
    apply matches_Chr_inv in Hu. subst u.
    apply matches_Plus_Class in Hg as [Hne Hg]. exists g. auto.
  - intros (g & -> & Hne & Hg). change (DOT :: g) with ([DOT] ++ g).
    constructor; [apply matches_Chr | apply matches_Plus_Class; auto].
Qed.

(** The group [[0-9A-Za-z-]+\.] of the children-entry pattern. *)
Lemma segment_dot_words (w : str) :
  matches (Cat (Plus (Class seg_char)) (Chr DOT)) w <->
  exists g, w = g ++ [DOT] /\ g <> [] /\ forallb seg_char g = true.
Proof.
  split.
  - intros H. apply matches_Cat_inv in H as (g & u & -> & Hg & Hu).
    apply matches_Chr_inv in Hu. subst u.
    apply matches_Plus_Class in Hg as [Hne Hg]. exists g. auto.
  - intros (g & -> & Hne & Hg).
    constructor; [apply matches_Plus_Class; auto | apply matches_Chr].
Qed.

Lemma words_of_groups (a : regex) (wrap : str -> str) (ws : list str) :
  (forall w, matches a w ->
             exists g, w = wrap g /\ g <> [] /\ forallb seg_char g = true) ->
  Forall (matches a) ws ->
  exists segs,
    Forall (fun g => g <> [] /\ forallb seg_char g = true) segs /\
    ws = map wrap segs.
Proof.
  intros Ha Hws. induction Hws as [ | w ws Hw _ (segs & Hsegs & ->) ].
  - exists []. split; [constructor | reflexivity].
  - destruct (Ha w Hw) as (g & -> & Hg).
    exists (g :: segs). split; [constructor; assumption | reflexivity].
Qed.

Lemma groups_of_words (a : regex) (wrap : str -> str) (segs : list str) :
  (forall g, g <> [] /\ forallb seg_char g = true -> matches a (wrap g)) ->
  Forall (fun g => g <> [] /\ forallb seg_char g = true) segs ->
  Forall (matches a) (map wrap segs).
Proof.
  intros Ha Hsegs. induction Hsegs as [ | g segs Hg _ IH ]; simpl;
    constructor; auto.
Qed.

(** The normal entries: [entry] and then any number of groups, each a dot
    and a non-empty run of segment characters. *)
Lemma normal_entry_words (s : str) :
  isNormalEntry s = true <->
  exists segs,
    Forall (fun g => g <> [] /\ forallb seg_char g = true) segs /\
    s = js "entry" ++ concat (map (cons DOT) segs).
Proof.
  unfold isNormalEntry, NORMAL_ENTRY. rewrite test_matches. split.
  - intros H. apply matches_Cat_inv in H as (s1 & t & -> & H1 & Ht).
    apply matches_Lit in H1. subst s1.
    apply matches_Star_concat in Ht as (ws & Hws & ->).
    destruct (words_of_groups (Cat (Chr DOT) (Plus (Class seg_char)))
                              (cons DOT) ws) as (segs & Hsegs & ->);
      [ intros w Hw; apply dot_segment_words; assumption | assumption | ].
    exists segs. auto.
  - intros (segs & Hsegs & ->).
    constructor; [apply matches_Lit; reflexivity | ].
    apply matches_Star_concat. exists (map (cons DOT) segs).
    split; [ | reflexivity ].
    apply groups_of_words; [ | assumption ].
    intros g Hg. apply dot_segment_words. exists g. tauto.
Qed.

(** The children entries: [entry..], then any number of groups, each a
    non-empty run of segment characters and a dot, then [children]. *)
Lemma children_entry_words (s : str) :
  isChildrenEntry s = true <->
  exists segs,
    Forall (fun g => g <> [] /\ forallb seg_char g = true) segs /\
    s = js "entry.." ++ concat (map (fun g => g ++ [DOT]) segs) ++ js "children".
Proof.
  unfold isChildrenEntry, CHILDREN_ENTRY. rewrite test_matches. split.
  - intros H. apply matches_Cat_inv in H as (s1 & t & -> & H1 & Ht).
    apply matches_Lit in H1. subst s1.
    apply matches_Cat_inv in Ht as (t1 & t2 & -> & Ht1 & Ht2).
    apply matches_Lit in Ht2. subst t2.
    apply matches_Alt_inv in Ht1 as [Ht1 | Ht1].
    + apply matches_Star_concat in Ht1 as (ws & Hws & ->).
      destruct (words_of_groups (Cat (Plus (Class seg_char)) (Chr DOT))
                                (fun g => g ++ [DOT]) ws)
        as (segs & Hsegs & ->);
        [ intros w Hw; apply segment_dot_words; assumption | assumption | ].
      exists segs. auto.
    + inversion Ht1; subst. exists []. split; [constructor | reflexivity].
  - intros (segs & Hsegs & ->).
    constructor; [apply matches_Lit; reflexivity | ].
    constructor; [ | apply matches_Lit; reflexivity ].
    apply MAltL. apply matches_Star_concat.
    exists (map (fun g => g ++ [DOT]) segs). split; [ | reflexivity ].
    apply groups_of_words; [ | assumption ].
    intros g Hg. apply segment_dot_words. exists g. tauto.
Qed.

End Grammar.

(** ** Entries and extensions *)

Section EntryNames.

Local Abbreviation entry_char :=
  (fun c : code_unit => seg_char c || (c =? DOT)%N).

(** A segment character or a dot is neither a separator nor a line
    terminator. *)
Lemma entry_char_plain (c : code_unit) :
  entry_char c = true -> not_slash c = true /\ any_char c = true.
Proof.
  intros H. unfold not_slash, is_slash, any_char, line_terminator, SLASH.
  destruct (c =? 47)%N eqn:E1;
    [apply N.eqb_eq in E1; subst; vm_compute in H; discriminate H | ].
  destruct (c =? 10)%N eqn:E2;
    [apply N.eqb_eq in E2; subst; vm_compute in H; discriminate H | ].
  destruct (c =? 13)%N eqn:E3;
    [apply N.eqb_eq in E3; subst; vm_compute in H; discriminate H | ].
  destruct (c =? 8232)%N eqn:E4;
    [apply N.eqb_eq in E4; subst; vm_compute in H; discriminate H | ].
  destruct (c =? 8233)%N eqn:E5;
    [apply N.eqb_eq in E5; subst; vm_compute in H; discriminate H | ].
  split; reflexivity.
Qed.

Lemma forallb_entry_char_plain (s : str) :
  forallb entry_char s = true ->
  includes s SLASH = false /\ forallb any_char s = true.
Proof.
  intros H. rewrite includes_not_slash.
  induction s as [ | c s IH ]; simpl in *; [auto | ].
  apply andb_true_iff in H as [Hc Hs].
  destruct (entry_char_plain c Hc) as [-> ->].
  destruct (IH Hs) as [-> ->]. auto.
Qed.

Lemma segments_entry_chars (wrap : str -> str) (segs : list str) :
  (forall g, forallb seg_char g = true -> forallb entry_char (wrap g) = true) ->
  Forall (fun g => g <> [] /\ forallb seg_char g = true) segs ->
  forallb entry_char (concat (map wrap segs)) = true.
Proof.
  intros Hw Hsegs. induction Hsegs as [ | g segs [_ Hg] _ IH ]; simpl;
    [reflexivity | ].
  rewrite forallb_app, (Hw g Hg), IH. reflexivity.
Qed.

Lemma seg_chars_entry_chars (g : str) :
  forallb seg_char g = true -> forallb entry_char g = true.
Proof.
  induction g as [ | c g IH ]; simpl; [reflexivity | ].
  intros H. apply andb_true_iff in H as [-> Hg]. rewrite (IH Hg). reflexivity.
Qed.

(** A normal entry is made of segment characters and dots. *)
Lemma normal_entry_chars (s : str) :
  isNormalEntry s = true -> s <> [] /\ forallb entry_char s = true.
Proof.
  intros H. apply normal_entry_words in H as (segs & Hsegs & ->).
  split; [discriminate | ].
  rewrite forallb_app. apply andb_true_iff. split; [reflexivity | ].
  apply segments_entry_chars; [ | assumption ].
  intros g Hg. simpl. apply seg_chars_entry_chars. assumption.
Qed.

(** A children entry is made of segment characters and dots. *)
Lemma children_entry_chars (s : str) :
  isChildrenEntry s = true -> s <> [] /\ forallb entry_char s = true.
Proof.
  intros H. apply children_entry_words in H as (segs & Hsegs & ->).
  split; [discriminate | ].
  rewrite !forallb_app. repeat (apply andb_true_iff; split); try reflexivity.
  apply segments_entry_chars; [ | assumption ].
  intros g Hg. rewrite forallb_app, (seg_chars_entry_chars g Hg). reflexivity.
Qed.

Lemma seg_chars_no_dot (g : str) :
  forallb seg_char g = true -> includes g DOT = false.
Proof.
  induction g as [ | c g IH ]; simpl; [reflexivity | ].
  intros H. apply andb_true_iff in H as [Hc Hg]. rewrite (IH Hg).
  destruct (c =? DOT)%N eqn:E; [ | reflexivity ].
  apply N.eqb_eq in E. subst c. discriminate Hc.
Qed.

(** A recognized extension is a group of the normal-entry grammar. *)
Lemma extension_is_group (e : str) :
  test EXTENSION e = true ->
  exists g, e = DOT :: g /\ g <> [] /\ forallb seg_char g = true.
Proof.
  intros H. apply extension_words in H as [-> | [-> | [-> | ->]]];
    [ exists (js "ts") | exists (js "tsx") | exists (js "js") | exists (js "jsx") ];
    (split; [reflexivity | split; [discriminate | reflexivity]]).
Qed.

(** What [replace] cuts off is nothing or a word of the pattern. *)
Lemma replace_end_suffix (r : regex) (s : str) :
  exists e, s = replace_end r s ++ e /\ (e = [] \/ test r e = true).
Proof.
  induction s as [ | c s (e & E & He) ]; rewrite replace_end_eq.
  - exists []. destruct (test r []); auto.
  - destruct (test r (c :: s)) eqn:Ht.
    + exists (c :: s). auto.
    + exists e. simpl. rewrite <- E. auto.
Qed.

Lemma isNormalEntry_with_extension (g e : str) :
  test EXTENSION e = true -> isNormalEntry g = true ->
  isNormalEntry (g ++ e) = true.
Proof.
  intros He Hg. apply extension_is_group in He as (x & -> & Hx).
  apply normal_entry_words in Hg as (segs & Hsegs & ->).
  apply normal_entry_words. exists (segs ++ [x]). split.
  - apply Forall_app. split; [assumption | constructor; [assumption | constructor]].
  - rewrite map_app, concat_app, <- app_assoc. simpl. rewrite app_nil_r.
    reflexivity.
Qed.

Lemma isNormalEntry_without_extension (g e : str) :
  test EXTENSION e = true -> isNormalEntry (g ++ e) = true ->
  isNormalEntry g = true.
Proof.
  intros He H. apply extension_is_group in He as (x & -> & _ & Hx).
  apply seg_chars_no_dot in Hx.
  apply normal_entry_words in H as (segs & Hsegs & E).
  destruct segs as [ | y segs _ ] using rev_ind.
  - apply (f_equal (fun s => includes s DOT)) in E.
    rewrite includes_app in E.
    change (includes (DOT :: x) DOT) with (true || includes x DOT) in E.
    rewrite orb_true_r in E. vm_compute in E. discriminate E.
  - apply Forall_app in Hsegs as [Hsegs Hy].
    inversion Hy as [ | y' l [_ Hy'] _ ]; subst.
    apply seg_chars_no_dot in Hy'.
    rewrite map_app, concat_app in E. cbn [map concat] in E.
    rewrite app_nil_r, app_assoc in E.
    apply last_separator_unique in E as [E _]; try assumption.
    apply normal_entry_words. exists segs. auto.
Qed.

(** Stripping the extension does not change the normal-entry test: the
    recognized extensions are groups of the grammar themselves. *)
Lemma isNormalEntry_stripExtension (f : str) :
  isNormalEntry (stripExtension f) = isNormalEntry f.
Proof.
  unfold stripExtension.
  destruct (replace_end_suffix EXTENSION f) as (e & E & [-> | He]).
  - rewrite app_nil_r in E. rewrite <- E. reflexivity.
  - rewrite E at 2.
    destruct (isNormalEntry (replace_end EXTENSION f)) eqn:H1,
      (isNormalEntry (replace_end EXTENSION f ++ e)) eqn:H2;
      try reflexivity.
    + rewrite (isNormalEntry_with_extension _ _ He H1) in H2. discriminate H2.
    + rewrite (isNormalEntry_without_extension _ _ He H2) in H1. discriminate H1.
Qed.

(** A children entry ends in [children], so stripping leaves it alone. *)
Lemma stripExtension_children (f : str) :
  isChildrenEntry f = true -> stripExtension f = f.
Proof.
  intros H. unfold stripExtension.
  destruct (replace_end_suffix EXTENSION f) as (e & E & [-> | He]).
  - rewrite app_nil_r in E. symmetry. assumption.
  - exfalso. apply children_entry_words in H as (segs & _ & Hf).
    rewrite Hf in E at 1. apply (f_equal (@rev code_unit)) in E.
    rewrite !rev_app_distr in E.
    apply extension_words in He as [-> | [-> | [-> | ->]]];
      cbn in E; discriminate E.
Qed.

(** A normal entry is no children entry, stripped or not. *)
Lemma normal_entry_not_children (f : str) :
  isNormalEntry f = true -> isChildrenEntry (stripExtension f) = false.
Proof.
  intros H. rewrite <- isNormalEntry_stripExtension in H.
  destruct (isChildrenEntry (stripExtension f)) eqn:Hc; [ | reflexivity ].
  exfalso. exact (entry_grammars_disjoint _ H Hc).
Qed.

End EntryNames.

(** ** A path with and without an extension *)

Section ExtensionStripping.

Lemma final_segment_with_extension (f e : str) :
  includes f SLASH = false -> test EXTENSION e = true ->
  includes (f ++ e) SLASH = false /\ f ++ e <> [] /\
  forallb any_char (f ++ e) = forallb any_char f /\
  stripExtension (f ++ e) = f.
Proof.
  intros Hf He. repeat split.
  - rewrite includes_app, Hf, (extension_no_separator e He). reflexivity.
  - intros E. apply app_nil_inv in E as [_ E].
    exact (extension_not_nil e He E).
  - rewrite forallb_app, (extension_no_line_terminator e He).
    apply andb_true_r.
  - apply stripExtension_app. assumption.
Qed.

Lemma length_not_nil (s : str) : s <> [] -> negb (length s =? 0) = true.
Proof. destruct s; [contradiction | reflexivity]. Qed.

(** The top-level branch with and without the extension. *)
Lemma topLevel_extension (f e x : str) :
  includes f SLASH = false -> test EXTENSION e = true ->
  isChildrenEntry (stripExtension f) = isChildrenEntry f ->
  x = f \/ (exists d1, x = d1 ++ SLASH :: f) ->
  reports (js "@/" ++ x ++ e) = reports (js "@/" ++ x).
Proof.
  intros Hf He Hch Hx.
  destruct (final_segment_with_extension f e Hf He) as (Hfe & Hfene & Hlt & Hs).
  rewrite !reports_topLevel by apply startsWith_app.
  destruct Hx as [-> | [d1 ->]].
  - rewrite !matchTopLevel_no_separator by assumption. reflexivity.
  - rewrite <- app_assoc, <- app_comm_cons.
    destruct (first_separator SLASH d1) as [Hd1 | (a & b & -> & Ha)].
    + rewrite !matchTopLevel_decomposed by assumption.
      rewrite (length_not_nil _ Hfene), Hlt.
      destruct (negb (length d1 =? 0)); [ | reflexivity ].
      destruct (forallb any_char f);
        [ | rewrite !andb_false_r; reflexivity ].
      cbn [andb]. rewrite Hfe, Hs.
      destruct f as [ | c f' ]; [reflexivity | ].
      cbn [length Nat.eqb negb andb].
      rewrite Hf, Hch, isNormalEntry_stripExtension. reflexivity.
    + rewrite <- !app_assoc, <- !app_comm_cons.
      rewrite !matchTopLevel_decomposed by assumption.
      rewrite (length_not_nil (b ++ SLASH :: f ++ e)),
        (length_not_nil (b ++ SLASH :: f))
        by (intros E; apply app_nil_inv in E as [_ E]; discriminate E).
      rewrite !forallb_app. simpl forallb. rewrite !forallb_app.
      rewrite (extension_no_line_terminator e He), ?andb_true_r.
      case_if; [ | reflexivity ].
      rewrite !includes_app.
      change (includes (SLASH :: f ++ e) SLASH)
        with (true || includes (f ++ e) SLASH).
      change (includes (SLASH :: f) SLASH) with (true || includes f SLASH).
      rewrite !orb_true_r. reflexivity.
Qed.

(** After a separator the split ends with the separator-free rest. *)
Lemma split_last_after_separator (a f : str) :
  includes f SLASH = false ->
  2 <= length (split (a ++ SLASH :: f) SLASH) /\
  last (split (a ++ SLASH :: f) SLASH) [] = f.
Proof.
  intros Hf. induction a as [ | c a [IHl IHr] ].
  - simpl app. change (SLASH :: f) with ([] ++ SLASH :: f).
    rewrite split_separator, split_no_separator by (assumption || reflexivity).
    split; [simpl; lia | reflexivity].
  - simpl. destruct (c =? SLASH)%N.
    + destruct (split (a ++ SLASH :: f) SLASH) as [ | x l ];
        [simpl in IHl; lia | ].
      split; [simpl in *; lia | exact IHr].
    + destruct (split (a ++ SLASH :: f) SLASH) as [ | x [ | y l ] ];
        try (simpl in IHl; lia).
      split; [simpl in *; lia | exact IHr].
Qed.

(** The last segment of a directory part followed by a separator-free
    name is that name. *)
Lemma last_split_final (d f : str) :
  d = [] \/ (exists d', d = d' ++ [SLASH]) ->
  includes f SLASH = false ->
  last (split (d ++ f) SLASH) [] = f.
Proof.
  intros [-> | [d' ->]] Hf.
  - simpl app. rewrite split_no_separator by assumption. reflexivity.
  - rewrite <- app_assoc. apply split_last_after_separator. assumption.
Qed.

(** Stripping changes the children-entry test only for a children entry
    followed by a recognized extension. *)
Lemma children_entry_with_extension (f : str) :
  isChildrenEntry (stripExtension f) = isChildrenEntry f \/
  exists c e, isChildrenEntry c = true /\ test EXTENSION e = true /\ f = c ++ e.
Proof.
  destruct (isChildrenEntry f) eqn:Hc.
  - left. rewrite (stripExtension_children f Hc). assumption.
  - destruct (isChildrenEntry (stripExtension f)) eqn:Hs; [ | left; reflexivity ].
    right. unfold stripExtension in *.
    destruct (replace_end_suffix EXTENSION f) as (e & E & [-> | He]).
    + rewrite app_nil_r in E. rewrite <- E in Hs. congruence.
    + exists (replace_end EXTENSION f), e. auto.
Qed.

End ExtensionStripping.

(** The directory part of a top-level path. *)
Lemma topLevel_directory (d f : str) :
  includes f SLASH = false ->
  d = [] \/ (exists d', d = d' ++ [SLASH]) ->
  startsWith (d ++ f) (js "@/") = true ->
  exists x, d ++ f = js "@/" ++ x /\
            (x = f \/ exists d1, x = d1 ++ SLASH :: f).
Proof.
  intros Hf [-> | [d' ->]] H.
  - apply startsWith_inv in H as [t E]. simpl in E. subst f.
    discriminate Hf.
  - apply startsWith_inv in H as [x E]. rewrite <- app_assoc in *.
    change (js "@/" ++ x) with (64%N :: SLASH :: x) in *.
    destruct d' as [ | c [ | c2 d'' ] ]; simpl in E; try discriminate E.
    + injection E as -> <-. exists f. split; [reflexivity | left; reflexivity].
    + injection E as -> -> <-. exists (d'' ++ SLASH :: f).
      split; [reflexivity | right; exists d''; reflexivity].
Qed.

(** ** Properties of the classifier *)

(** C1 -- Grammar disjointness: no file name is accepted by both entry
    grammars.  For every string, the normal-entry test and the
    children-entry test are never both true. *)
Theorem C1_entry_grammars_disjoint (s : str) :
  isNormalEntry s && isChildrenEntry s = false.
Proof.
  destruct (isNormalEntry s) eqn:Hn, (isChildrenEntry s) eqn:Hc;
    try reflexivity.
  exfalso. exact (entry_grammars_disjoint s Hn Hc).
Qed.

(** C2 -- Single report: one invocation of the handler on any path makes
    at most one report, so the reports are exactly the kind returned by
    [classify] (or none); and the subdirectory branch, where two reports
    of the same kind follow each other in the text, adds at most one
    report to those already made. *)
Theorem C2_single_report (p : str) :
  length (reports p) <= 1 /\
  reports p = match classify p with Some k => [k] | None => [] end /\
  (forall log, length (snd (subdirectoryImport p log)) <= S (length log)).
Proof.
  assert (Hsub : forall log,
             length (snd (subdirectoryImport p log)) <= S (length log)).
  { intros log. rewrite run_subdirectoryImport, length_app.
    repeat case_if; simpl; lia. }
  unfold classify.
  destruct (startsWith p (js "@/")) eqn:H1.
  - rewrite (reports_topLevel p H1).
    destruct (matchTopLevel p) as [[m f] | ]; repeat case_if; simpl; auto.
  - destruct (startsWith p (js "..")) eqn:H2.
    + rewrite (reports_parent p H2). repeat case_if; simpl; auto.
    + destruct (startsWith p (js "./")) eqn:H3.
      * rewrite (reports_subdirectory p H3). repeat case_if; simpl; auto.
      * rewrite (reports_no_branch p H1 H2 H3). simpl; auto.
Qed.

(** C3 (as amended) -- Prefix routing: every path whose first two
    characters are [..] is handled by the parent-traversal branch,
    whatever follows them; such a path without any separator is reported
    as [invalidParentImport]. *)
Theorem C3_dot_dot_prefix_is_parent (p : str) :
  startsWith p (js "..") = true ->
  reports p = snd (parentImport p []) /\
  (includes p SLASH = false -> classify p = Some invalidParentImport).
Proof.
  intros H. split.
  - rewrite (reports_parent p H), run_parentImport. reflexivity.
  - intros Hs. unfold classify. rewrite (reports_parent p H).
    rewrite split_no_separator by assumption.
    rewrite basename_no_separator by assumption.
    destruct (startsWith_dot_dot p H) as (_ & _ & t & ->).
    rewrite isChildrenEntry_strip_dot_dot. reflexivity.
Qed.

Lemma C3_dot_dot_prefix_is_parent_witness :
  startsWith (js "..helper") (js "..") = true /\
  reports (js "..helper") = snd (parentImport (js "..helper") []) /\
  classify (js "..helper") = Some invalidParentImport.
Proof.
  split; [reflexivity | ].
  destruct (C3_dot_dot_prefix_is_parent (js "..helper") eq_refl) as [H1 H2].
  split; [exact H1 | exact (H2 eq_refl)].
Defined.

(** The path [..helper] starts with two dots followed by neither a
    separator nor the end of the string and contains no separator, and
    yet it is a parent-traversal violation. *)
Lemma C3_counterexample :
  startsWith (js "..helper") (js ".") = true /\
  startsWith (js "..helper") (js "..") = true /\
  startsWith (js "..helper") (js "../") = false /\
  js "..helper" <> js ".." /\
  includes (js "..helper") SLASH = false /\
  classify (js "..helper") = Some invalidParentImport /\
  classify (js "..helper") <> None.
Proof. repeat split; try reflexivity; discriminate. Qed.




(** C5 -- Parent-traversal branch: for a path that starts with [..],
    more than two segments of the whole path give
    [tooManyDirectorySegments]; otherwise nothing is reported exactly when
    the last segment, stripped of a recognized extension, is a children
    entry, and [invalidParentImport] is reported when it is not.  The four
    paths of the specification behave accordingly. *)
Theorem C5_parent_branch :
  (forall p : str,
      startsWith p (js "..") = true ->
      classify p =
      if 2 <? length (split p SLASH) then Some tooManyDirectorySegments
      else if isChildrenEntry (stripExtension (last (split p SLASH) []))
           then None
           else Some invalidParentImport) /\
  classify (js "../entry..children") = None /\
  classify (js "../entry..utils.children") = None /\
  classify (js "../entry") = Some invalidParentImport /\
  classify (js "../../entry..children") = Some tooManyDirectorySegments.
Proof.
  split; [ | repeat split; reflexivity ].
  intros p H. unfold classify. rewrite (reports_parent p H).
  destruct (2 <? length (split p SLASH)) eqn:Hlen; [reflexivity | ].
  rewrite (parent_file_name p H Hlen).
  case_if; reflexivity.
Qed.

Lemma C5_parent_branch_witness :
  startsWith (js "../entry..canvas.children.tsx") (js "..") = true /\
  classify (js "../entry..canvas.children.tsx") = None.
Proof.
  split; [reflexivity | ].
  exact (proj1 C5_parent_branch (js "../entry..canvas.children.tsx") eq_refl).
Defined.

(** C6 -- Subdirectory branch, at the path [./entry/]: removing [./] and
    splitting on the separator gives exactly the two segments [entry] and
    the empty string; the last segment is no normal entry, but the file
    name the handler checks is the base name [entry], so nothing is
    reported.  The top-level branch reports the same trailing separator. *)
Theorem C6_subdirectory_trailing_separator :
  startsWith (js "./entry/") (js "./") = true /\
  split (slice (js "./entry/") 2) SLASH = [js "entry"; []] /\
  isNormalEntry
    (stripExtension (last (split (slice (js "./entry/") 2) SLASH) [])) = false /\
  stripExtension (basename (js "./entry/")) = js "entry" /\
  classify (js "./entry/") = None /\
  classify (js "@/ui/entry/") = Some invalidTopLevelImportDepth.
Proof. repeat split; reflexivity. Qed.

(** C7 -- Out-of-scope imports are accepted: a path that starts neither
    with [.] nor with the top-level marker [@/] is never reported. *)
Theorem C7_out_of_scope (p : str) :
  startsWith p (js ".") = false -> startsWith p (js "@/") = false ->
  classify p = None.
Proof.
  intros H1 H2. unfold classify.
  rewrite (reports_out_of_scope p H1 H2). reflexivity.
Qed.

Lemma C7_out_of_scope_witness :
  startsWith (js "react") (js ".") = false /\
  startsWith (js "react") (js "@/") = false /\
  classify (js "react") = None.
Proof.
  split; [reflexivity | split; [reflexivity | ]].
  apply (C7_out_of_scope (js "react")); reflexivity.
Defined.

(** C8 (as amended) -- Extension stripping: take a path made of a
    directory part, empty or ending in a separator, and a last segment,
    and append any recognized extension to it.  In the subdirectory
    branch the result is the same with and without the extension for
    every non-empty last segment.  In the top-level and parent branches
    it is the same whenever stripping does not change the children-entry
    test of the last segment, that is unless the last segment is a
    children entry followed by a recognized extension: exactly one
    extension is stripped.  So [entry.ts], [entry.tsx], [entry.core.ts]
    and [entry.core.tsx] classify as [entry] and [entry.core] do. *)
Theorem C8_one_extension_stripped (d f e : str) :
  d = [] \/ (exists d', d = d' ++ [SLASH]) ->
  includes f SLASH = false ->
  test EXTENSION e = true ->
  (startsWith (d ++ f) (js "./") = true -> f <> [] ->
   classify (d ++ f ++ e) = classify (d ++ f)) /\
  (startsWith (d ++ f) (js "@/") || startsWith (d ++ f) (js "..") = true ->
   isChildrenEntry (stripExtension f) = isChildrenEntry f ->
   classify (d ++ f ++ e) = classify (d ++ f)).
Proof.
  intros Hd Hf He.
  destruct (final_segment_with_extension f e Hf He) as (Hfe & Hfene & _ & Hs).
  pose proof (extension_no_separator e He) as Hes.
  unfold classify. split.
  - intros Hbr Hne. apply (f_equal (@hd_error MessageId)).
    rewrite reports_subdirectory
      by (rewrite app_assoc; apply startsWith_app_r; assumption).
    rewrite (reports_subdirectory _ Hbr).
    rewrite !basename_final by assumption.
    assert (Hsl : slice (d ++ f ++ e) 2 = slice (d ++ f) 2 ++ e).
    { rewrite app_assoc. destruct (startsWith_inv _ _ Hbr) as [t ->].
      reflexivity. }
    rewrite Hsl, split_length_app by assumption.
    rewrite Hs, isNormalEntry_stripExtension.
    destruct (isNormalEntry f) eqn:Hn; [ | reflexivity ].
    rewrite (normal_entry_not_children f Hn).
    destruct (isChildrenEntry f) eqn:Hc; [ | reflexivity ].
    exfalso. exact (entry_grammars_disjoint f Hn Hc).
  - intros Hbr Hch. apply (f_equal (@hd_error MessageId)).
    destruct (startsWith (d ++ f) (js "@/")) eqn:H1.
    + destruct (topLevel_directory d f Hf Hd H1) as (x & E & Hx).
      rewrite app_assoc, E, <- app_assoc.
      exact (topLevel_extension f e x Hf He Hch Hx).
    + change (startsWith (d ++ f) (js "..") = true) in Hbr.
      assert (Hq : startsWith (d ++ f ++ e) (js "..") = true)
        by (rewrite app_assoc; apply startsWith_app_r; assumption).
      assert (Hlen : length (split (d ++ f ++ e) SLASH) =
                     length (split (d ++ f) SLASH))
        by (rewrite app_assoc; apply split_length_app; assumption).
      rewrite (reports_parent _ Hq), (reports_parent _ Hbr), Hlen.
      destruct (2 <? length (split (d ++ f) SLASH)) eqn:L2; [reflexivity | ].
      rewrite (parent_file_name (d ++ f) Hbr L2).
      rewrite (parent_file_name (d ++ f ++ e) Hq) by (rewrite Hlen; exact L2).
      rewrite !last_split_final by assumption.
      rewrite Hs, Hch. reflexivity.
Qed.

Lemma C8_one_extension_stripped_witness :
  classify (js "@/ui/" ++ js "entry" ++ js ".ts") =
  classify (js "@/ui/" ++ js "entry") /\
  classify (js "@/ui/" ++ js "entry.js" ++ js ".ts") =
  classify (js "@/ui/" ++ js "entry.js") /\
  classify (js "../" ++ js "entry" ++ js ".tsx") =
  classify (js "../" ++ js "entry") /\
  classify (js "./ui/" ++ js "entry.core" ++ js ".ts") =
  classify (js "./ui/" ++ js "entry.core") /\
  classify (js "./ui/" ++ js "entry.core" ++ js ".tsx") =
  classify (js "./ui/" ++ js "entry.core") /\
  classify (js "./ui/" ++ js "entry..children.ts" ++ js ".ts") =
  classify (js "./ui/" ++ js "entry..children.ts").
Proof.
  assert (Hne : forall c s, c :: s <> @nil code_unit) by discriminate.
  split; [ | split; [ | split; [ | split; [ | split ] ] ] ].
  - apply (proj2 (C8_one_extension_stripped (js "@/ui/") (js "entry") (js ".ts")
                    (or_intror (ex_intro _ (js "@/ui") eq_refl))
                    eq_refl eq_refl) eq_refl eq_refl).
  - apply (proj2 (C8_one_extension_stripped (js "@/ui/") (js "entry.js") (js ".ts")
                    (or_intror (ex_intro _ (js "@/ui") eq_refl))
                    eq_refl eq_refl) eq_refl eq_refl).
  - apply (proj2 (C8_one_extension_stripped (js "../") (js "entry") (js ".tsx")
                    (or_intror (ex_intro _ (js "..") eq_refl))
                    eq_refl eq_refl) eq_refl eq_refl).
  - apply (proj1 (C8_one_extension_stripped (js "./ui/") (js "entry.core") (js ".ts")
                    (or_intror (ex_intro _ (js "./ui") eq_refl))
                    eq_refl eq_refl) eq_refl (Hne _ _)).
  - apply (proj1 (C8_one_extension_stripped (js "./ui/") (js "entry.core") (js ".tsx")
                    (or_intror (ex_intro _ (js "./ui") eq_refl))
                    eq_refl eq_refl) eq_refl (Hne _ _)).
  - apply (proj1 (C8_one_extension_stripped (js "./ui/") (js "entry..children.ts")
                    (js ".ts")
                    (or_intror (ex_intro _ (js "./ui") eq_refl))
                    eq_refl eq_refl) eq_refl (Hne _ _)).
Defined.

(** The last segment [entry..children.ts.ts] carries the extension [.ts];
    with that extension removed the path is accepted, with it the path is
    reported: only one extension is stripped. *)
Lemma C8_counterexample :
  test EXTENSION (js ".ts") = true /\
  js "../entry..children.ts.ts" = js "../entry..children.ts" ++ js ".ts" /\
  startsWith (js "../entry..children.ts.ts") (js "..") = true /\
  startsWith (js "../entry..children.ts") (js "..") = true /\
  classify (js "../entry..children.ts.ts") = Some invalidParentImport /\
  classify (js "../entry..children.ts") = None /\
  classify (js "../entry..children.ts.ts") <> classify (js "../entry..children.ts").
Proof. repeat split; try reflexivity; discriminate. Qed.

(** C9 -- The module segment of a top-level import is not validated:
    whatever non-empty separator-free name stands between the marker and
    [/entry], also [..] or [entry..children], the path is not reported. *)
Theorem C9_module_segment_unchecked :
  (forall m : str,
      m <> [] -> includes m SLASH = false ->
      classify (js "@/" ++ m ++ js "/entry") = None) /\
  classify (js "@/../entry") = None /\
  classify (js "@/entry..children/entry") = None.
Proof.
  split; [ | split; reflexivity ].
  intros m Hm Hs. unfold classify.
  rewrite reports_topLevel by apply startsWith_app.
  change (js "/entry") with (SLASH :: js "entry").
  rewrite matchTopLevel_complete; try assumption; try discriminate; reflexivity.
Qed.

Lemma C9_module_segment_unchecked_witness :
  js ".." <> [] /\ includes (js "..") SLASH = false /\
  classify (js "@/" ++ js ".." ++ js "/entry") = None.
Proof.
  split; [discriminate | split; [reflexivity | ]].
  apply (proj1 C9_module_segment_unchecked (js "..")); [discriminate | reflexivity].
Defined.

(** C10 -- Dot-only inputs: the bare parent marker [..] is reported as
    [invalidParentImport], its only segment [..] being taken as the file
    name, which is no children entry; the single dot [.] passes the first
    filter, enters none of the three branches and is not reported. *)
Theorem C10_dot_only_inputs :
  classify (js "..") = Some invalidParentImport /\
  split (js "..") SLASH = [js ".."] /\
  stripExtension (basename (js "..")) = js ".." /\
  isChildrenEntry (js "..") = false /\
  classify (js ".") = None /\
  startsWith (js ".") (js ".") = true /\
  startsWith (js ".") (js "@/") = false /\
  startsWith (js ".") (js "..") = false /\
  startsWith (js ".") (js "./") = false.
Proof. repeat split; reflexivity. Qed.

(** ** Further properties of the rule *)

(** X1 -- The normal-entry pattern accepts exactly the names made of
    [entry] followed by any number of groups, each a dot and a non-empty
    run of characters of [[0-9A-Za-z-]]. *)
Theorem X1_normal_entry_grammar (s : str) :
  isNormalEntry s = true <->
  exists segs,
    Forall (fun g => g <> [] /\ forallb seg_char g = true) segs /\
    s = js "entry" ++ concat (map (cons DOT) segs).
Proof. exact (normal_entry_words s). Qed.

Lemma X1_normal_entry_grammar_witness :
  isNormalEntry (js "entry" ++ concat (map (cons DOT) [js "core"; js "x-1"])) = true.
Proof.
  apply (proj2 (X1_normal_entry_grammar _)).
  exists [js "core"; js "x-1"]. split; [ | reflexivity ].
  repeat constructor; discriminate.
Defined.

(** X2 -- The children-entry pattern accepts exactly the names made of
    [entry..], any number of groups, each a non-empty run of characters
    of [[0-9A-Za-z-]] and a dot, and the word [children]. *)
Theorem X2_children_entry_grammar (s : str) :
  isChildrenEntry s = true <->
  exists segs,
    Forall (fun g => g <> [] /\ forallb seg_char g = true) segs /\
    s = js "entry.." ++ concat (map (fun g => g ++ [DOT]) segs) ++ js "children".
Proof. exact (children_entry_words s). Qed.

Lemma X2_children_entry_grammar_witness :
  isChildrenEntry
    (js "entry.." ++ concat (map (fun g => g ++ [DOT]) [js "canvas"])
        ++ js "children") = true.
Proof.
  apply (proj2 (X2_children_entry_grammar _)).
  exists [js "canvas"]. split; [ | reflexivity ].
  repeat constructor; discriminate.
Defined.

(** X3 -- Extension stripping removes exactly one recognized extension
    from the end of a name, whatever stands before it, and otherwise
    leaves the name as it is: a name is its stripped form, or its
    stripped form followed by one recognized extension. *)
Theorem X3_stripExtension_one_suffix :
  (forall f e : str,
      test EXTENSION e = true -> stripExtension (f ++ e) = f) /\
  (forall name : str,
      stripExtension name = name \/
      exists e, test EXTENSION e = true /\ name = stripExtension name ++ e).
Proof.
  split; [exact stripExtension_app | ].
  intros name. unfold stripExtension.
  destruct (replace_end_suffix EXTENSION name) as (e & E & [-> | He]).
  - left. rewrite app_nil_r in E. symmetry. assumption.
  - right. exists e. auto.
Qed.

Lemma X3_stripExtension_one_suffix_witness :
  test EXTENSION (js ".tsx") = true /\
  stripExtension (js "Button.test" ++ js ".tsx") = js "Button.test".
Proof.
  split; [reflexivity | ].
  apply (proj1 X3_stripExtension_one_suffix (js "Button.test") (js ".tsx")).
  reflexivity.
Defined.

(** X4 -- Stripping the extension never changes the outcome of the
    normal-entry test: the four recognized extensions are themselves
    groups of the normal-entry grammar. *)
Theorem X4_normal_entry_ignores_stripping (fileName : str) :
  isNormalEntry (stripExtension fileName) = isNormalEntry fileName.
Proof. exact (isNormalEntry_stripExtension fileName). Qed.

(** X5 -- The match of the top-level shape succeeds exactly on the paths
    made of the marker, a non-empty module name without separator, a
    separator and a non-empty file path without line terminator; it
    captures that module name and that file path: the module name ends at
    the first separator after the marker. *)
Theorem X5_matchTopLevel_captures (p m r : str) :
  matchTopLevel p = Some (m, r) <->
  p = js "@/" ++ m ++ SLASH :: r /\
  m <> [] /\ includes m SLASH = false /\
  r <> [] /\ forallb any_char r = true.
Proof.
  split.
  - apply matchTopLevel_sound.
  - intros (-> & Hm & Hms & Hr & Hrs). apply matchTopLevel_complete; assumption.
Qed.

Lemma X5_matchTopLevel_captures_witness :
  matchTopLevel (js "@/" ++ js "ui" ++ SLASH :: js "a/b") =
  Some (js "ui", js "a/b").
Proof.
  apply (proj2 (X5_matchTopLevel_captures _ (js "ui") (js "a/b"))).
  repeat split; try reflexivity; discriminate.
Defined.

(** X6 -- The accepted top-level imports are exactly the paths made of
    the marker, a non-empty module name without separator, a separator
    and a normal entry, with or without a recognized extension after
    it (the extension then counts as the last group of the entry). *)
Theorem X6_top_level_accepted (p : str) :
  startsWith p (js "@/") = true ->
  (classify p = None <->
   exists m r, p = js "@/" ++ m ++ SLASH :: r /\
               m <> [] /\ includes m SLASH = false /\
               isNormalEntry r = true).
Proof.
  intros H. unfold classify. rewrite (reports_topLevel p H). split.
  - destruct (matchTopLevel p) as [[m r] | ] eqn:E; [ | discriminate ].
    apply matchTopLevel_sound in E as (-> & Hm & Hms & _).
    destruct (includes r SLASH); [discriminate | ].
    destruct (isChildrenEntry (stripExtension r)); [discriminate | ].
    destruct (isNormalEntry (stripExtension r)) eqn:Hn; [ | discriminate ].
    intros _. rewrite isNormalEntry_stripExtension in Hn.
    exists m, r. auto.
  - intros (m & r & -> & Hm & Hms & Hn).
    destruct (normal_entry_chars r Hn) as [Hr Hc].
    destruct (forallb_entry_char_plain r Hc) as [Hrs Hrl].
    rewrite matchTopLevel_complete by assumption.
    rewrite Hrs, (normal_entry_not_children r Hn).
    rewrite isNormalEntry_stripExtension, Hn. reflexivity.
Qed.

Lemma X6_top_level_accepted_witness :
  classify (js "@/" ++ js "ui" ++ SLASH :: js "entry.core.tsx") = None.
Proof.
  apply (proj2 (X6_top_level_accepted
                  (js "@/" ++ js "ui" ++ SLASH :: js "entry.core.tsx") eq_refl)).
  exists (js "ui"), (js "entry.core.tsx").
  repeat split; try reflexivity; discriminate.
Defined.

(** X7 -- Subdirectory branch on a path whose last segment is not empty:
    one segment after [./] is a sibling and is accepted whatever its name;
    more than two segments give [tooManyDirectorySegments]; with exactly
    two, the path is accepted when the last segment, stripped of its
    extension, is a normal entry and no children entry, and is reported as
    [invalidSubdirectoryImport] otherwise. *)
Theorem X7_subdirectory_branch (p : str) :
  startsWith p (js "./") = true ->
  last (split (slice p 2) SLASH) [] <> [] ->
  classify p =
  if length (split (slice p 2) SLASH) =? 1 then None
  else if 2 <? length (split (slice p 2) SLASH)
       then Some tooManyDirectorySegments
       else if isNormalEntry (stripExtension (last (split (slice p 2) SLASH) []))
               && negb (isChildrenEntry
                          (stripExtension (last (split (slice p 2) SLASH) [])))
            then None
            else Some invalidSubdirectoryImport.
Proof. exact (subdirectory_branch_file_segment p). Qed.

Lemma X7_subdirectory_branch_witness :
  classify (js "./components/Button.tsx") = Some invalidSubdirectoryImport.
Proof.
  rewrite (X7_subdirectory_branch (js "./components/Button.tsx") eq_refl).
  - reflexivity.
  - discriminate.
Defined.

(** X8 -- Trailing separator: the file name is then taken from the
    directory.  A subdirectory path [./d/] is accepted exactly when the
    directory name [d], stripped of an extension, is a normal entry, and
    a parent path [..d/] is always reported as [invalidParentImport]. *)
Theorem X8_trailing_separator (d : str) :
  includes d SLASH = false ->
  classify (js "./" ++ d ++ [SLASH]) =
  (if isNormalEntry (stripExtension d) then None
   else Some invalidSubdirectoryImport) /\
  classify (js ".." ++ d ++ [SLASH]) = Some invalidParentImport.
Proof.
  intros Hd. unfold classify. split.
  - destruct d as [ | c d ]; [reflexivity | ].
    rewrite reports_subdirectory by apply startsWith_app.
    change (slice (js "./" ++ (c :: d) ++ [SLASH]) 2) with ((c :: d) ++ [SLASH]).
    rewrite split_separator by assumption. cbn [split length Nat.eqb Nat.ltb Nat.leb].
    rewrite app_assoc, basename_trailing_separator.
    change (js "./" ++ c :: d) with ([DOT] ++ SLASH :: c :: d).
    rewrite basename_last_segment by (assumption || discriminate).
    destruct (isNormalEntry (stripExtension (c :: d))) eqn:Hn; [ | reflexivity ].
    destruct (isChildrenEntry (stripExtension (c :: d))) eqn:Hc; [ | reflexivity ].
    exfalso. exact (entry_grammars_disjoint _ Hn Hc).
  - rewrite reports_parent by apply startsWith_app.
    assert (Hs : includes (js ".." ++ d) SLASH = false)
      by (rewrite includes_app, Hd; reflexivity).
    rewrite app_assoc, split_separator by assumption.
    cbn [split length Nat.ltb Nat.leb].
    rewrite basename_trailing_separator, basename_no_separator by assumption.
    change (js ".." ++ d) with (DOT :: DOT :: d).
    rewrite isChildrenEntry_strip_dot_dot. reflexivity.
Qed.

Lemma X8_trailing_separator_witness :
  classify (js "./" ++ js "entry.core" ++ [SLASH]) = None /\
  classify (js "./" ++ js "utils" ++ [SLASH]) = Some invalidSubdirectoryImport /\
  classify (js ".." ++ js "" ++ [SLASH]) = Some invalidParentImport.
Proof.
  split; [ | split ].
  - exact (proj1 (X8_trailing_separator (js "entry.core") eq_refl)).
  - exact (proj1 (X8_trailing_separator (js "utils") eq_refl)).
  - exact (proj2 (X8_trailing_separator (js "") eq_refl)).
Defined.

(** X9 -- Each message belongs to a branch: the three top-level kinds
    are only reported for paths that start with [@/],
    [invalidParentImport] only for paths that start with [..],
    [invalidSubdirectoryImport] only for paths that start with [./], and
    [tooManyDirectorySegments] only for paths that start with [..] or
    [./]; in particular a path outside these prefixes is never reported. *)
Theorem X9_kind_determines_branch (p : str) (k : MessageId) :
  classify p = Some k ->
  match k with
  | invalidTopLevelImport
  | invalidTopLevelImportDepth
  | invalidTopLevelImportChildren => startsWith p (js "@/") = true
  | invalidParentImport => startsWith p (js "..") = true
  | invalidSubdirectoryImport => startsWith p (js "./") = true
  | tooManyDirectorySegments =>
      startsWith p (js "@/") = false /\
      (startsWith p (js "..") = true \/ startsWith p (js "./") = true)
  end.
Proof.
  unfold classify.
  destruct (startsWith p (js "@/")) eqn:H1.
  - rewrite (reports_topLevel p H1).
    destruct (matchTopLevel p) as [[m f] | ]; repeat case_if;
      intros E; try discriminate E; injection E as <-; reflexivity.
  - destruct (startsWith p (js "..")) eqn:H2.
    + rewrite (reports_parent p H2).
      repeat case_if; intros E; try discriminate E; injection E as <-; auto.
    + destruct (startsWith p (js "./")) eqn:H3.
      * rewrite (reports_subdirectory p H3).
        repeat case_if; intros E; try discriminate E; injection E as <-; auto.
      * rewrite (reports_no_branch p H1 H2 H3). discriminate.
Qed.

Lemma X9_kind_determines_branch_witness :
  startsWith (js "../../entry..children") (js "@/") = false /\
  (startsWith (js "../../entry..children") (js "..") = true \/
   startsWith (js "../../entry..children") (js "./") = true).
Proof.
  exact (X9_kind_determines_branch (js "../../entry..children")
                                   tooManyDirectorySegments eq_refl).
Defined.

(** X10 -- In the subdirectory branch the second check never reports:
    whenever [invalidSubdirectoryImport] is reported, the path starts with
    [./], has exactly two segments after it, and its file name failed the
    normal-entry test. *)
Theorem X10_subdirectory_report_origin (p : str) :
  classify p = Some invalidSubdirectoryImport ->
  startsWith p (js "./") = true /\
  length (split (slice p 2) SLASH) = 2 /\
  isNormalEntry (stripExtension (basename p)) = false.
Proof.
  unfold classify.
  destruct (startsWith p (js "@/")) eqn:H1.
  - rewrite (reports_topLevel p H1).
    destruct (matchTopLevel p) as [[m f] | ]; repeat case_if; discriminate.
  - destruct (startsWith p (js "..")) eqn:H2.
    + rewrite (reports_parent p H2). repeat case_if; discriminate.
    + destruct (startsWith p (js "./")) eqn:H3.
      * rewrite (reports_subdirectory p H3).
        pose proof (split_not_nil (slice p 2) SLASH) as Hnil.
        destruct (length (split (slice p 2) SLASH) =? 1) eqn:L1;
          [discriminate | ].
        destruct (2 <? length (split (slice p 2) SLASH)) eqn:L2;
          [discriminate | ].
        apply Nat.eqb_neq in L1. apply Nat.ltb_ge in L2.
        assert (L : length (split (slice p 2) SLASH) = 2).
        { destruct (split (slice p 2) SLASH); [contradiction | ].
          simpl in *. lia. }
        destruct (isNormalEntry (stripExtension (basename p))) eqn:Hn;
          [ | auto ].
        destruct (isChildrenEntry (stripExtension (basename p))) eqn:Hc;
          [ | discriminate ].
        exfalso. exact (entry_grammars_disjoint _ Hn Hc).
      * rewrite (reports_no_branch p H1 H2 H3). discriminate.
Qed.

Lemma X10_subdirectory_report_origin_witness :
  startsWith (js "./utils/entry..children") (js "./") = true /\
  length (split (slice (js "./utils/entry..children") 2) SLASH) = 2 /\
  isNormalEntry (stripExtension (basename (js "./utils/entry..children"))) = false.
Proof.
  exact (X10_subdirectory_report_origin (js "./utils/entry..children") eq_refl).
Defined.

(** X11 -- Accepted paths cross at most one directory: split on the
    separator, an accepted top-level path has exactly three segments
    (marker, module, file), an accepted parent path exactly two, and an
    accepted path that starts with [./] two or three. *)
Theorem X11_accepted_segments (p : str) :
  classify p = None ->
  (startsWith p (js "@/") = true -> length (split p SLASH) = 3) /\
  (startsWith p (js "..") = true -> length (split p SLASH) = 2) /\
  (startsWith p (js "./") = true ->
   length (split p SLASH) = 2 \/ length (split p SLASH) = 3).
Proof.
  unfold classify. intros Hnone. repeat split.
  - intros H. rewrite (reports_topLevel p H) in Hnone.
    destruct (matchTopLevel p) as [[m r] | ] eqn:E; [ | discriminate ].
    apply matchTopLevel_sound in E as (-> & _ & Hms & _).
    destruct (includes r SLASH) eqn:Hr; [discriminate | ].
    change (js "@/" ++ m ++ SLASH :: r) with ([64%N] ++ SLASH :: m ++ SLASH :: r).
    rewrite split_separator by reflexivity.
    rewrite split_separator by assumption.
    rewrite split_no_separator by assumption. reflexivity.
  - intros H. rewrite (reports_parent p H) in Hnone.
    destruct (2 <? length (split p SLASH)) eqn:L2; [discriminate | ].
    apply Nat.ltb_ge in L2.
    destruct (isChildrenEntry (stripExtension (basename p))) eqn:Hc;
      [ | discriminate ].
    pose proof (split_not_nil p SLASH) as Hnil.
    assert (L : length (split p SLASH) <> 1).
    { intros L. apply split_length_1 in L.
      rewrite basename_no_separator in Hc by assumption.
      destruct (startsWith_dot_dot p H) as (_ & _ & t & ->).
      rewrite isChildrenEntry_strip_dot_dot in Hc. discriminate Hc. }
    destruct (split p SLASH); [contradiction | ]. simpl in *. lia.
  - intros H. rewrite (reports_subdirectory p H) in Hnone.
    apply startsWith_inv in H as [t ->].
    change (slice (js "./" ++ t) 2) with t in Hnone.
    change (js "./" ++ t) with ([DOT] ++ SLASH :: t).
    rewrite split_separator by reflexivity. simpl length.
    pose proof (split_not_nil t SLASH) as Hnil.
    destruct (length (split t SLASH) =? 1) eqn:L1.
    + apply Nat.eqb_eq in L1. left. lia.
    + apply Nat.eqb_neq in L1.
      destruct (2 <? length (split t SLASH)) eqn:L2; [discriminate | ].
      apply Nat.ltb_ge in L2. right.
      destruct (split t SLASH); [contradiction | ]. simpl in *. lia.
Qed.

Lemma X11_accepted_segments_witness :
  length (split (js "@/ui/entry.core") SLASH) = 3 /\
  length (split (js "../entry..children") SLASH) = 2.
Proof.
  split.
  - exact (proj1 (X11_accepted_segments (js "@/ui/entry.core") eq_refl) eq_refl).
  - exact (proj1 (proj2 (X11_accepted_segments (js "../entry..children") eq_refl))
                 eq_refl).
Defined.

(** X12 -- No message is dead: each of the six kinds declared by the rule
    is reported for some import path. *)
Theorem X12_every_kind_reported (k : MessageId) :
  exists p : str, classify p = Some k.
Proof.
  destruct k.
  - exists (js "../entry"). reflexivity.
  - exists (js "./ui/Button"). reflexivity.
  - exists (js "./a/b/entry"). reflexivity.
  - exists (js "@/ui/Button"). reflexivity.
  - exists (js "@/ui/icons/entry"). reflexivity.
  - exists (js "@/ui/entry..children"). reflexivity.
Qed.

(** X13 -- Where a normal entry may be imported from: whatever the
    non-empty module name, the directory name and the normal entry (its
    last group may be a recognized extension), the top-level import
    [@/module/entry], the subdirectory import [./dir/entry] and the
    sibling import [./entry] are accepted, and the parent import
    [../entry] is reported as [invalidParentImport]. *)
Theorem X13_normal_entry_imports (m d f : str) :
  m <> [] -> includes m SLASH = false -> includes d SLASH = false ->
  isNormalEntry f = true ->
  classify (js "@/" ++ m ++ SLASH :: f) = None /\
  classify (js "./" ++ d ++ SLASH :: f) = None /\
  classify (js "./" ++ f) = None /\
  classify (js "../" ++ f) = Some invalidParentImport.
Proof.
  intros Hm Hms Hd Hn.
  destruct (normal_entry_chars f Hn) as [Hf Hc].
  destruct (forallb_entry_char_plain f Hc) as [Hfs Hfl].
  pose proof (normal_entry_not_children f Hn) as Hnc.
  pose proof (isNormalEntry_stripExtension f) as Hst. rewrite Hn in Hst.
  unfold classify. repeat split.
  - rewrite reports_topLevel by apply startsWith_app.
    rewrite matchTopLevel_complete by assumption.
    rewrite Hfs, Hnc, Hst. reflexivity.
  - rewrite reports_subdirectory by apply startsWith_app.
    change (slice (js "./" ++ d ++ SLASH :: f) 2) with (d ++ SLASH :: f).
    rewrite split_separator, split_no_separator by assumption.
    cbn [length Nat.eqb Nat.ltb Nat.leb].
    rewrite app_assoc, basename_last_segment by assumption.
    rewrite Hst, Hnc. reflexivity.
  - rewrite reports_subdirectory by apply startsWith_app.
    change (slice (js "./" ++ f) 2) with f.
    rewrite split_no_separator by assumption. reflexivity.
  - change (js "../" ++ f) with (js ".." ++ SLASH :: f).
    rewrite reports_parent by apply startsWith_app.
    rewrite split_separator, split_no_separator by (assumption || reflexivity).
    cbn [length Nat.ltb Nat.leb].
    rewrite basename_last_segment by assumption.
    rewrite Hnc. reflexivity.
Qed.

Lemma X13_normal_entry_imports_witness :
  classify (js "@/" ++ js "ui" ++ SLASH :: js "entry.cs.ts") = None /\
  classify (js "./" ++ js "canvas" ++ SLASH :: js "entry.cs.ts") = None /\
  classify (js "./" ++ js "entry.cs.ts") = None /\
  classify (js "../" ++ js "entry.cs.ts") = Some invalidParentImport.
Proof.
  assert (Hne : forall c s, c :: s <> @nil code_unit) by discriminate.
  exact (X13_normal_entry_imports (js "ui") (js "canvas") (js "entry.cs.ts")
                                  (Hne _ _) eq_refl eq_refl eq_refl).
Defined.

(** X14 -- Where a children entry may be imported from: with or without
    a recognized extension after it, a children entry is accepted as a
    parent import [../entry..children], whatever separator-free text
    follows the two leading dots of the directory part, and as a sibling
    import, is reported as [invalidTopLevelImportChildren] as a top-level
    import and as [invalidSubdirectoryImport] as a subdirectory import. *)
Theorem X14_children_entry_imports (m d f e : str) :
  m <> [] -> includes m SLASH = false -> includes d SLASH = false ->
  isChildrenEntry f = true ->
  e = [] \/ test EXTENSION e = true ->
  classify (js ".." ++ d ++ SLASH :: f ++ e) = None /\
  classify (js "./" ++ f ++ e) = None /\
  classify (js "@/" ++ m ++ SLASH :: f ++ e) = Some invalidTopLevelImportChildren /\
  classify (js "./" ++ d ++ SLASH :: f ++ e) = Some invalidSubdirectoryImport.
Proof.
  intros Hm Hms Hd Hc He.
  destruct (children_entry_chars f Hc) as [Hf Hfc].
  destruct (forallb_entry_char_plain f Hfc) as [Hfs Hfl].
  assert (Hstrip : stripExtension (f ++ e) = f).
  { destruct He as [-> | He];
      [rewrite app_nil_r; apply stripExtension_children | apply stripExtension_app];
      assumption. }
  assert (Hes : includes e SLASH = false /\ forallb any_char e = true).
  { destruct He as [-> | He]; [split; reflexivity | ].
    split; [apply extension_no_separator | apply extension_no_line_terminator];
      assumption. }
  destruct Hes as [Hes Hel].
  assert (Hne : f ++ e <> [])
    by (intros E; apply app_nil_inv in E as [E _]; contradiction).
  assert (Hs : includes (f ++ e) SLASH = false)
    by (rewrite includes_app, Hfs, Hes; reflexivity).
  assert (Hl : forallb any_char (f ++ e) = true)
    by (rewrite forallb_app, Hfl, Hel; reflexivity).
  assert (Hn : isNormalEntry f = false).
  { destruct (isNormalEntry f) eqn:Hn; [ | reflexivity ].
    exfalso. exact (entry_grammars_disjoint f Hn Hc). }
  unfold classify. repeat split.
  - rewrite reports_parent by apply startsWith_app.
    assert (Hdd : includes (js ".." ++ d) SLASH = false)
      by (rewrite includes_app, Hd; reflexivity).
    rewrite app_assoc, split_separator, split_no_separator by assumption.
    cbn [length Nat.ltb Nat.leb].
    rewrite basename_last_segment by assumption.
    rewrite Hstrip, Hc. reflexivity.
  - rewrite reports_subdirectory by apply startsWith_app.
    change (slice (js "./" ++ f ++ e) 2) with (f ++ e).
    rewrite split_no_separator by assumption. reflexivity.
  - rewrite reports_topLevel by apply startsWith_app.
    rewrite matchTopLevel_complete by assumption.
    rewrite Hs, Hstrip, Hc. reflexivity.
  - rewrite reports_subdirectory by apply startsWith_app.
    change (slice (js "./" ++ d ++ SLASH :: f ++ e) 2) with (d ++ SLASH :: f ++ e).
    rewrite split_separator, split_no_separator by assumption.
    cbn [length Nat.eqb Nat.ltb Nat.leb].
    rewrite app_assoc, basename_last_segment by assumption.
    rewrite Hstrip, Hn. reflexivity.
Qed.

Lemma X14_children_entry_imports_witness :
  classify (js ".." ++ js "" ++ SLASH :: js "entry..canvas.children" ++ js ".ts")
  = None /\
  classify (js "./" ++ js "entry..canvas.children" ++ js ".ts") = None /\
  classify (js "@/" ++ js "ui" ++ SLASH :: js "entry..canvas.children" ++ js ".ts")
  = Some invalidTopLevelImportChildren /\
  classify (js "./" ++ js "" ++ SLASH :: js "entry..canvas.children" ++ js ".ts")
  = Some invalidSubdirectoryImport.
Proof.
  assert (Hne : forall c s, c :: s <> @nil code_unit) by discriminate.
  exact (X14_children_entry_imports
           (js "ui") (js "") (js "entry..canvas.children") (js ".ts")
           (Hne _ _) eq_refl eq_refl eq_refl (or_intror eq_refl)).
Defined.

(** X15 -- The accepted parent imports are exactly the paths made of two
    dots, any separator-free text, one separator and a file name that,
    stripped of its extension, is a children entry: the directory part is
    only required to start with two dots, and a path without separator
    or with an empty file name is never accepted. *)
Theorem X15_parent_accepted (p : str) :
  startsWith p (js "..") = true ->
  (classify p = None <->
   exists d f, p = js ".." ++ d ++ SLASH :: f /\
               includes d SLASH = false /\ includes f SLASH = false /\
               isChildrenEntry (stripExtension f) = true).
Proof.
  intros H. unfold classify. rewrite (reports_parent p H). split.
  - destruct (2 <? length (split p SLASH)) eqn:L2; [discriminate | ].
    rewrite (parent_file_name p H L2).
    destruct (isChildrenEntry (stripExtension (last (split p SLASH) [])))
      eqn:Hc; [ | discriminate ].
    intros _. apply Nat.ltb_ge in L2.
    destruct (startsWith_dot_dot p H) as (_ & _ & t & ->).
    destruct (first_separator SLASH t) as [Ht | (d & f & -> & Hd)].
    + exfalso.
      assert (Hp : includes (DOT :: DOT :: t) SLASH = false) by exact Ht.
      rewrite split_no_separator in Hc by assumption. simpl last in Hc.
      rewrite isChildrenEntry_strip_dot_dot in Hc. discriminate Hc.
    + assert (Hdd : includes (DOT :: DOT :: d) SLASH = false) by exact Hd.
      change (DOT :: DOT :: d ++ SLASH :: f)
        with ((DOT :: DOT :: d) ++ SLASH :: f) in *.
      rewrite split_separator in * by assumption. simpl in L2.
      assert (Hf : includes f SLASH = false).
      { apply split_length_1. pose proof (split_not_nil f SLASH).
        destruct (split f SLASH) as [ | x [ | y l ] ]; simpl in *;
          [contradiction | reflexivity | lia]. }
      rewrite (split_no_separator f SLASH Hf) in Hc. simpl last in Hc.
      exists d, f. auto.
  - intros (d & f & -> & Hd & Hf & Hc).
    assert (Hdd : includes (js ".." ++ d) SLASH = false)
      by (rewrite includes_app, Hd; reflexivity).
    assert (Hne : f <> []).
    { intros ->. discriminate Hc. }
    rewrite app_assoc, split_separator, split_no_separator by assumption.
    cbn [length Nat.ltb Nat.leb].
    rewrite basename_last_segment by assumption.
    rewrite Hc. reflexivity.
Qed.

Lemma X15_parent_accepted_witness :
  classify (js ".." ++ js "lib" ++ SLASH :: js "entry..children.ts") = None.
Proof.
  apply (proj2 (X15_parent_accepted
                  (js ".." ++ js "lib" ++ SLASH :: js "entry..children.ts")
                  eq_refl)).
  exists (js "lib"), (js "entry..children.ts").
  repeat split; reflexivity.
Defined.
